(** * shopnest-backend: store statistics and category CRUD

    A shallow embedding of [statistics.service.ts] and of the category
    service, with the Prisma queries they issue read as functions over an
    in-memory snapshot of the relational tables.

    Conventions.
    - Timestamps are milliseconds since the epoch ([Z]).  Local time is UTC
      shifted by a fixed offset; daylight-saving changes are not modelled.
    - [price], [quantity] and [rating] are integer columns ([Z]); the sums
      the services compute are then exact.  The average rating is a
      rational ([Q]).
    - A [findMany] without [orderBy] returns the rows in table order. *)

From Stdlib Require Import ZArith QArith String List Lia.
From stdpp Require Import gmap strings list sorting pretty.

Local Open Scope string_scope.
Local Open Scope Z_scope.

(** ** Rows of the relational store *)

Module OrderItem.
Record t := mk { price : Z; quantity : Z; storeId : string }.
End OrderItem.

Module Order.
Record t := mk
  { id : string; createdAt : Z; userId : string; items : list OrderItem.t }.
End Order.

Module User.
Record t := mk
  { id : string; name : string; email : string; picture : string;
    createdAt : Z }.
End User.

Module Product.
Record t := mk { id : string; storeId : string }.
End Product.

Module Review.
Record t := mk { rating : Z; storeId : string }.
End Review.

(** Modelled from the spec: the [CategoryDto] declaration
    ([./dto/category.dto]) and the [Category] table of the Prisma schema
    are not among the sources; the spec gives the dto the fields name and
    slug and scopes a category to a store by a foreign key. *)
Module CategoryDto.
Record t := mk { name : string; slug : string }.
End CategoryDto.

Module Category.
(** A row of the table, stored under its primary key. *)
Record row := mkRow { storeId : string; name : string; slug : string }.
(** What the client hands back: the row together with its id. *)
Record t := mk { id : string; data : row }.
End Category.

Record DB := mkDB
  { users : list User.t;
    orders : list Order.t;
    products : list Product.t;
    reviews : list Review.t;
    categories : gmap string Category.row }.

(** ** Exceptions *)

Inductive Error :=
| NotFoundException (msg : string)
| TypeError
| UniqueConstraintViolation
| RecordNotFound.

Inductive Exc (A : Type) :=
| Ok (a : A)
| Throw (e : Error).
Arguments Ok {A} a.
Arguments Throw {A} e.

Definition exc_bind {A B} (m : Exc A) (k : A → Exc B) : Exc B :=
  match m with
  | Ok a => k a
  | Throw e => Throw e
  end.

Fixpoint exc_mapM {A B} (f : A → Exc B) (l : list A) : Exc (list B) :=
  match l with
  | [] => Ok []
  | x :: l' =>
      exc_bind (f x) (λ y, exc_bind (exc_mapM f l') (λ ys, Ok (y :: ys)))
  end.

(** ** The JavaScript values the services lean on *)

Module Js.
(** [Map<string, number>]: keys in insertion order; [set] on a present key
    keeps its position. *)
Definition Map := list (string * Z).

Fixpoint has (m : Map) (k : string) : bool :=
  match m with
  | [] => false
  | (k', _) :: m' => if decide (k' = k) then true else has m' k
  end.

Fixpoint get (m : Map) (k : string) : option Z :=
  match m with
  | [] => None
  | (k', v) :: m' => if decide (k' = k) then Some v else get m' k
  end.

Fixpoint set (m : Map) (k : string) (v : Z) : Map :=
  match m with
  | [] => [(k, v)]
  | (k', v') :: m' =>
      if decide (k' = k) then (k, v) :: m' else (k', v') :: set m' k v
  end.

(** [a || 0] on a nullable number: [null] and [0] are falsy. *)
Definition or_zero (a : option Q) : Q :=
  match a with
  | Some q => if Qeq_bool q 0 then 0%Q else q
  | None => 0%Q
  end.
End Js.

(** ** Local calendar: dayjs and [Date] *)

Record Clock := mkClock { now : Z; utcOffset : Z }.

Module Calendar.
Definition msPerDay : Z := 86400000.

(** Number of the local calendar day a timestamp falls on. *)
Definition localDay (clk : Clock) (t : Z) : Z :=
  (t + utcOffset clk) `div` msPerDay.

Definition startOfDay (clk : Clock) (d : Z) : Z :=
  d * msPerDay - utcOffset clk.

Definition endOfDay (clk : Clock) (d : Z) : Z :=
  d * msPerDay + (msPerDay - 1) - utcOffset clk.

(** Gregorian (month, day of month) of a day number, month counted from
    0 as [Date.prototype.getMonth] does. *)
Definition monthAndDate (d : Z) : Z * Z :=
  let z := d + 719468 in
  let era := z `div` 146097 in
  let doe := z - era * 146097 in
  let yoe := (doe - doe `div` 1460 + doe `div` 36524 - doe `div` 146096)
               `div` 365 in
  let doy := doe - (365 * yoe + yoe `div` 4 - yoe `div` 100) in
  let mp := (5 * doy + 2) `div` 153 in
  let day := doy - (153 * mp + 2) `div` 5 + 1 in
  let month := if decide (mp < 10) then mp + 3 else mp - 9 in
  (month - 1, day).

Definition getMonth (clk : Clock) (t : Z) : Z :=
  fst (monthAndDate (localDay clk t)).

Definition getDate (clk : Clock) (t : Z) : Z :=
  snd (monthAndDate (localDay clk t)).
End Calendar.

(** ** statistics.service.ts *)

(** The shapes of the values the service returns. *)
Module Metric.
Record t := mk { id : Z; name : string; value : Q }.
End Metric.

Module DailySales.
Record t := mk { date : string; value : Z }.
End DailySales.

Module LastUser.
Record t := mk
  { id : string; name : string; email : string; picture : string;
    total : Z }.
End LastUser.

Module StatisticsService.
Import Calendar.

Definition monthNames : list string :=
  ["jan"; "feb"; "mar"; "apr"; "may"; "jun";
   "jul"; "aug"; "sep"; "oct"; "nov"; "dec"].

(** [items: { some: { storeId } }] *)
Definition hasStoreItem (storeId : string) (o : Order.t) : Prop :=
  Exists (λ i, OrderItem.storeId i = storeId) (Order.items o).

Global Instance hasStoreItem_dec storeId o : Decision (hasStoreItem storeId o).
Proof. unfold hasStoreItem. apply _. Defined.

(** [include: { items: { where: { storeId } } }] *)
Definition storeItems (storeId : string) (o : Order.t) : list OrderItem.t :=
  filter (λ i, OrderItem.storeId i = storeId) (Order.items o).

Definition withStoreItems (storeId : string) (o : Order.t) : Order.t :=
  Order.mk (Order.id o) (Order.createdAt o) (Order.userId o)
    (storeItems storeId o).

Definition calculateTotalRevenue (db : DB) (storeId : string) : Z :=
  let orders :=
    withStoreItems storeId <$> filter (hasStoreItem storeId) (orders db) in
  fold_left
    (λ acc order,
       let total :=
         fold_left
           (λ itemAcc item,
              itemAcc + OrderItem.price item * OrderItem.quantity item)
           (Order.items order) 0 in
       acc + total)
    orders 0.

Definition countProducts (db : DB) (storeId : string) : Z :=
  Z.of_nat (length (filter (λ p, Product.storeId p = storeId) (products db))).

Definition countCategories (db : DB) (storeId : string) : Z :=
  Z.of_nat
    (length
       (filter (λ kv, Category.storeId (snd kv) = storeId)
          (map_to_list (categories db)))).

(** [_avg: { rating: true }]: [null] when no row matches. *)
Definition calculateAverageRating (db : DB) (storeId : string) : option Q :=
  let rs := filter (λ r, Review.storeId r = storeId) (reviews db) in
  match rs with
  | [] => None
  | _ :: _ =>
      Some (Qdiv (inject_Z (foldr Z.add 0 (Review.rating <$> rs)))
              (inject_Z (Z.of_nat (length rs))))
  end.

Definition getMainStatistics (db : DB) (storeId : string) : list Metric.t :=
  let totalRevenue := calculateTotalRevenue db storeId in
  let productsCount := countProducts db storeId in
  let categoriesCount := countCategories db storeId in
  let averageRating := calculateAverageRating db storeId in
  [ Metric.mk 1 "Revenue" (inject_Z totalRevenue);
    Metric.mk 2 "Products" (inject_Z productsCount);
    Metric.mk 3 "Categories" (inject_Z categoriesCount);
    Metric.mk 4 "Average rating" (Js.or_zero averageRating) ].

Definition startDate (clk : Clock) : Z :=
  startOfDay clk (localDay clk (now clk) - 30).

Definition endDate (clk : Clock) : Z :=
  endOfDay clk (localDay clk (now clk)).

Definition formatDate (clk : Clock) (t : Z) : string :=
  pretty (getDate clk t) +:+ " "
    +:+ nth (Z.to_nat (getMonth clk t)) monthNames "undefined".

(** The [where] clause of the query in [calculateMonthlySales]. *)
Definition inSalesWindow (clk : Clock) (storeId : string) (o : Order.t) : Prop :=
  startDate clk ≤ Order.createdAt o ∧ Order.createdAt o ≤ endDate clk
  ∧ hasStoreItem storeId o.

Global Instance inSalesWindow_dec clk storeId o :
  Decision (inSalesWindow clk storeId o).
Proof. unfold inSalesWindow. apply _. Defined.

Definition orderTotal (o : Order.t) : Z :=
  fold_left
    (λ total item, total + OrderItem.price item * OrderItem.quantity item)
    (Order.items o) 0.

Definition addSale (clk : Clock) (salesByDate : Js.Map) (order : Order.t) : Js.Map :=
  let formattedDate := formatDate clk (Order.createdAt order) in
  let total := orderTotal order in
  if Js.has salesByDate formattedDate
  then Js.set salesByDate formattedDate
         (default 0 (Js.get salesByDate formattedDate) + total)
  else Js.set salesByDate formattedDate total.

Definition calculateMonthlySales (clk : Clock) (db : DB) (storeId : string)
  : list DailySales.t :=
  (* include: { items: true } -- every item of the order comes back *)
  let salesRaw := filter (inSalesWindow clk storeId) (orders db) in
  let salesByDate := fold_left (addSale clk) salesRaw [] in
  (λ kv, DailySales.mk (fst kv) (snd kv)) <$> salesByDate.

(** *** getLastUsers *)

(** [select: { price: true }] *)
Record ItemPrice := mkItemPrice { price : Z }.

(** An order as [include: { orders: ... }] returns it. *)
Record UserOrder := mkUserOrder
  { uo_id : string; uo_createdAt : Z; uo_userId : string;
    uo_items : list ItemPrice }.

Record UserWithOrders := mkUserWithOrders
  { user : User.t; user_orders : list UserOrder }.

Definition selectPrices (storeId : string) (o : Order.t) : UserOrder :=
  mkUserOrder (Order.id o) (Order.createdAt o) (Order.userId o)
    ((λ i, mkItemPrice (OrderItem.price i)) <$> storeItems storeId o).

(** An order of user [u] that holds an item of the store. *)
Definition qualifyingOrder (storeId : string) (u : User.t) (o : Order.t) : Prop :=
  Order.userId o = User.id u ∧ hasStoreItem storeId o.

Global Instance qualifyingOrder_dec storeId u o :
  Decision (qualifyingOrder storeId u o).
Proof. unfold qualifyingOrder. apply _. Defined.

(** [orders: { some: { items: { some: { storeId } } } }] *)
Definition hasQualifyingOrder (db : DB) (storeId : string) (u : User.t) : Prop :=
  Exists (qualifyingOrder storeId u) (orders db).

Global Instance hasQualifyingOrder_dec db storeId u :
  Decision (hasQualifyingOrder db storeId u).
Proof. unfold hasQualifyingOrder. apply _. Defined.

(** [orderBy: { createdAt: 'desc' }] *)
Definition createdAtDesc (u v : User.t) : Prop :=
  User.createdAt v ≤ User.createdAt u.

Global Instance createdAtDesc_dec : RelDecision createdAtDesc.
Proof. intros u v. unfold createdAtDesc. apply _. Defined.

(** The [user.findMany] query of [getLastUsers]. *)
Definition findLastUsers (db : DB) (storeId : string) : list UserWithOrders :=
  let matching := filter (hasQualifyingOrder db storeId) (users db) in
  let newestFirst := merge_sort createdAtDesc matching in
  (λ u, mkUserWithOrders u
          (selectPrices storeId
             <$> filter (qualifyingOrder storeId u) (orders db)))
    <$> take 5 newestFirst.

(** The callback of [lastUsers.map]: [user.orders[user.orders.length - 1]]
    is [undefined] on an empty array, and reading [.items] of it throws. *)
Definition lastUserTotal (u : UserWithOrders) : Exc LastUser.t :=
  match last (user_orders u) with
  | None => Throw TypeError
  | Some lastOrder =>
      let total :=
        fold_left (λ total item, total + price item) (uo_items lastOrder) 0 in
      Ok (LastUser.mk (User.id (user u)) (User.name (user u))
            (User.email (user u)) (User.picture (user u)) total)
  end.

Definition getLastUsers (db : DB) (storeId : string) : Exc (list LastUser.t) :=
  exc_mapM lastUserTotal (findLastUsers db storeId).

Record MiddleStatistics := mkMiddleStatistics
  { monthlySales : list DailySales.t; lastUsers : list LastUser.t }.

Definition getMiddleStatistics (clk : Clock) (db : DB) (storeId : string)
  : Exc MiddleStatistics :=
  let monthlySales := calculateMonthlySales clk db storeId in
  exc_bind (getLastUsers db storeId)
    (λ lastUsers, Ok (mkMiddleStatistics monthlySales lastUsers)).
End StatisticsService.

(** ** The category service *)

(** Calls on the Prisma client: they read and write the category table and
    may throw. *)
Definition Prisma (A : Type) : Type :=
  gmap string Category.row → Exc A * gmap string Category.row.

Global Instance prisma_ret : MRet Prisma := λ A a tbl, (Ok a, tbl).

Global Instance prisma_bind : MBind Prisma := λ A B k m tbl,
  match m tbl with
  | (Ok a, tbl') => k a tbl'
  | (Throw e, tbl') => (Throw e, tbl')
  end.

Definition throw {A} (e : Error) : Prisma A := λ tbl, (Throw e, tbl).

Module PrismaCategory.
Definition findUnique (id : string) : Prisma (option Category.t) :=
  λ tbl, (Ok (Category.mk id <$> tbl !! id), tbl).

Definition findMany (storeId : string) : Prisma (list Category.t) :=
  λ tbl,
    (Ok ((λ kv, Category.mk (fst kv) (snd kv))
           <$> filter (λ kv, Category.storeId (snd kv) = storeId)
                 (map_to_list tbl)),
     tbl).

Section Create.
(** The id the database gives to a row inserted into a table. *)
Variable newId : gmap string Category.row → string.

Definition create (data : Category.row) : Prisma Category.t :=
  λ tbl,
    let id := newId tbl in
    match tbl !! id with
    | Some _ => (Throw UniqueConstraintViolation, tbl)
    | None => (Ok (Category.mk id data), <[id := data]> tbl)
    end.
End Create.

Definition update (id : string) (data : CategoryDto.t) : Prisma Category.t :=
  λ tbl,
    match tbl !! id with
    | None => (Throw RecordNotFound, tbl)
    | Some r =>
        let r' :=
          Category.mkRow (Category.storeId r)
            (CategoryDto.name data) (CategoryDto.slug data) in
        (Ok (Category.mk id r'), <[id := r']> tbl)
    end.

Definition delete (id : string) : Prisma Category.t :=
  λ tbl,
    match tbl !! id with
    | None => (Throw RecordNotFound, tbl)
    | Some r => (Ok (Category.mk id r), base.delete id tbl)
    end.
End PrismaCategory.

Module CategoryService.
Definition getManyByStoreId (storeId : string) : Prisma (list Category.t) :=
  PrismaCategory.findMany storeId.

Definition getById (id : string) : Prisma Category.t :=
  category ← PrismaCategory.findUnique id;
  match category with
  | None => throw (NotFoundException "Category not found")
  | Some c => mret c
  end.

Section Create.
Variable newId : gmap string Category.row → string.

(** [data: { ...dto, storeId }] *)
Definition create (storeId : string) (dto : CategoryDto.t)
  : Prisma Category.t :=
  PrismaCategory.create newId
    (Category.mkRow storeId (CategoryDto.name dto) (CategoryDto.slug dto)).
End Create.

Definition update (id : string) (dto : CategoryDto.t) : Prisma Category.t :=
  _ ← getById id;
  PrismaCategory.update id dto.

Definition delete (id : string) : Prisma Category.t :=
  _ ← getById id;
  PrismaCategory.delete id.
End CategoryService.

(** ** Specification-level sums and example data *)

Definition sumZ (l : list Z) : Z := foldr Z.add 0 l.

Definition lineTotal (i : OrderItem.t) : Z :=
  OrderItem.price i * OrderItem.quantity i.

(** The revenue of a store as the spec words it: price times quantity,
    summed over the items of that store in the given orders. *)
Definition storeRevenue (storeId : string) (os : list Order.t) : Z :=
  sumZ (lineTotal
          <$> filter (λ i, OrderItem.storeId i = storeId)
                (concat (Order.items <$> os))).

(** A store id nothing in the database refers to. *)
Definition unknownStore (db : DB) (storeId : string) : Prop :=
  Forall (λ o, Forall (λ i, OrderItem.storeId i ≠ storeId) (Order.items o))
    (orders db)
  ∧ Forall (λ p, Product.storeId p ≠ storeId) (products db)
  ∧ map_Forall (λ _ c, Category.storeId c ≠ storeId) (categories db)
  ∧ Forall (λ r, Review.storeId r ≠ storeId) (reviews db).

Global Instance unknownStore_dec db storeId : Decision (unknownStore db storeId).
Proof. unfold unknownStore. apply _. Defined.

(** A store without reviews. *)
Definition noReviews (db : DB) (storeId : string) : Prop :=
  Forall (λ r, Review.storeId r ≠ storeId) (reviews db).

(** The database of the spec's example on store ["S"]: order A holds an
    item of S (10, twice) and an item of another store (5, once); order B
    holds an item of S (3, once).  Both were placed on 2 November 2026,
    the day of [exampleClock]. *)
Definition exampleClock : Clock := mkClock 1793620800000 7200000.

Definition exampleDB : DB :=
  mkDB
    [User.mk "u1" "Ann" "ann@shop" "ann.png" 1790000000000;
     User.mk "u2" "Bob" "bob@shop" "bob.png" 1791000000000]
    [Order.mk "A" 1793620800000 "u1"
       [OrderItem.mk 10 2 "S"; OrderItem.mk 5 1 "T"];
     Order.mk "B" 1793624400000 "u2" [OrderItem.mk 3 1 "S"]]
    [Product.mk "p1" "S"; Product.mk "p2" "T"]
    [Review.mk 5 "T"]
    {["c1" := Category.mkRow "T" "Tea" "tea"]}.

Definition emptyDB : DB := mkDB [] [] [] [] ∅.

Definition exampleCategories : gmap string Category.row :=
  {["c1" := Category.mkRow "T" "Tea" "tea"]}.

Definition exampleDto : CategoryDto.t := CategoryDto.mk "Mugs" "mugs".

(** A user as the mapping of [getLastUsers] would see one that came back
    without orders. *)
Definition userWithoutOrders : StatisticsService.UserWithOrders :=
  StatisticsService.mkUserWithOrders
    (User.mk "u9" "Eve" "eve@shop" "eve.png" 0) [].

(** The exception of [getById]. *)
Definition categoryNotFound : Error := NotFoundException "Category not found".

(** The label of a day: [formatDate] only looks at the local day. *)
Definition dayLabel (d : Z) : string :=
  pretty (snd (Calendar.monthAndDate d)) +:+ " "
    +:+ nth (Z.to_nat (fst (Calendar.monthAndDate d)))
          StatisticsService.monthNames "undefined".

(** The database after the category service has left the category table
    as [tbl]. *)
Definition withCategories (db : DB) (tbl : gmap string Category.row) : DB :=
  mkDB (users db) (orders db) (products db) (reviews db) tbl.

(** The rows of a store, table by table: what a query filtered on the
    store id can see. *)
Definition storeItemsOf (db : DB) (storeId : string) : list OrderItem.t :=
  filter (λ i, OrderItem.storeId i = storeId)
    (concat (Order.items <$> orders db)).

Definition storeProductsOf (db : DB) (storeId : string) : list Product.t :=
  filter (λ p, Product.storeId p = storeId) (products db).

Definition storeReviewsOf (db : DB) (storeId : string) : list Review.t :=
  filter (λ r, Review.storeId r = storeId) (reviews db).

Definition storeCategoryRowsOf (db : DB) (storeId : string)
  : list (string * Category.row) :=
  filter (λ kv, Category.storeId kv.2 = storeId) (map_to_list (categories db)).

(** The example database with the rows of the other stores taken out. *)
Definition exampleDBOnlyS : DB :=
  mkDB
    [User.mk "u1" "Ann" "ann@shop" "ann.png" 1790000000000;
     User.mk "u2" "Bob" "bob@shop" "bob.png" 1791000000000]
    [Order.mk "A" 1793620800000 "u1" [OrderItem.mk 10 2 "S"];
     Order.mk "B" 1793624400000 "u2" [OrderItem.mk 3 1 "S"]]
    [Product.mk "p1" "S"]
    []
    ∅.

(** The steps of [Calendar.monthAndDate], one by one. *)
Module CalendarSteps.
Definition eraOf (d : Z) : Z := (d + 719468) `div` 146097.
Definition doeOf (d : Z) : Z := d + 719468 - eraOf d * 146097.
Definition yoeOf (doe : Z) : Z :=
  (doe - doe `div` 1460 + doe `div` 36524 - doe `div` 146096) `div` 365.
Definition yearStart (yoe : Z) : Z := 365 * yoe + yoe `div` 4 - yoe `div` 100.
Definition doyOf (doe : Z) : Z := doe - yearStart (yoeOf doe).
Definition mpOf (doy : Z) : Z := (5 * doy + 2) `div` 153.
Definition dayOf (doy : Z) : Z := doy - (153 * mpOf doy + 2) `div` 5 + 1.
Definition monthOf (mp : Z) : Z := if decide (mp < 10) then mp + 3 else mp - 9.
End CalendarSteps.

(** The label [formatDate] builds from a (month, day of month) pair, and
    the pairs a calendar has. *)
Definition labelOf (md : Z * Z) : string :=
  pretty (snd md) +:+ " "
    +:+ nth (Z.to_nat (fst md)) StatisticsService.monthNames "undefined".

Definition calendarCells : list (Z * Z) :=
  m ← seqZ 0 12; d ← seqZ 1 31; [(m, d)].


(** ** Theorems *)

Import Calendar StatisticsService.

Section Sums.
Context {A : Type} (f : A → Z).

Lemma fold_left_add (l : list A) (a : Z) :
  fold_left (λ acc x, acc + f x) l a = a + sumZ (f <$> l).
Proof.
  revert a. induction l as [|x l IH]; intros a; csimpl.
  - unfold sumZ. simpl. lia.
  - rewrite IH. unfold sumZ. simpl. lia.
Qed.

Lemma sumZ_app (l1 l2 : list Z) : sumZ (l1 ++ l2) = sumZ l1 + sumZ l2.
Proof. unfold sumZ. induction l1; simpl; lia. Qed.
End Sums.

Lemma storeRevenue_cons storeId o os :
  storeRevenue storeId (o :: os)
  = sumZ (lineTotal <$> storeItems storeId o) + storeRevenue storeId os.
Proof.
  unfold storeRevenue, storeItems. simpl.
  by rewrite filter_app, fmap_app, sumZ_app.
Qed.

Lemma storeItems_nil storeId o :
  ¬ hasStoreItem storeId o → storeItems storeId o = [].
Proof.
  unfold hasStoreItem, storeItems. intros Hno.
  induction (Order.items o) as [|i l IH]; [done|].
  rewrite filter_cons. case_decide as Hi.
  - exfalso. apply Hno. by left.
  - apply IH. intros Hl. apply Hno. by right.
Qed.

Lemma storeRevenue_skip storeId os :
  storeRevenue storeId (filter (hasStoreItem storeId) os)
  = storeRevenue storeId os.
Proof.
  induction os as [|o os IH]; [done|].
  rewrite filter_cons. case_decide as Ho.
  - by rewrite !storeRevenue_cons, IH.
  - rewrite storeRevenue_cons, IH, (storeItems_nil _ _ Ho). done.
Qed.

Lemma revenue_fold storeId os a :
  fold_left
    (λ acc order,
       acc + fold_left
               (λ itemAcc item,
                  itemAcc + OrderItem.price item * OrderItem.quantity item)
               (Order.items order) 0)
    (withStoreItems storeId <$> os) a
  = a + storeRevenue storeId os.
Proof.
  revert a. induction os as [|o os IH]; intros a; csimpl.
  - unfold storeRevenue. simpl. lia.
  - rewrite IH, storeRevenue_cons.
    rewrite (fold_left_add lineTotal). lia.
Qed.

(** C2. The total revenue of a store is the sum of price times quantity
    over exactly the order items whose [storeId] is that store, across the
    orders that hold at least one such item; the items of other stores in
    those orders add nothing, so the figure is also that sum taken across
    all orders.  It is the value of the first metric of
    [getMainStatistics]. *)
Theorem calculateTotalRevenue_store_items (db : DB) (storeId : string) :
  calculateTotalRevenue db storeId
  = storeRevenue storeId (filter (hasStoreItem storeId) (orders db))
  ∧ calculateTotalRevenue db storeId = storeRevenue storeId (orders db)
  ∧ Metric.value <$> getMainStatistics db storeId !! 0%nat
    = Some (inject_Z
              (storeRevenue storeId
                 (filter (hasStoreItem storeId) (orders db)))).
Proof.
  assert (calculateTotalRevenue db storeId
          = storeRevenue storeId (filter (hasStoreItem storeId) (orders db)))
    as Hrev.
  { unfold calculateTotalRevenue. by rewrite revenue_fold. }
  split; [done|]. split.
  - by rewrite Hrev, storeRevenue_skip.
  - unfold getMainStatistics. simpl. by rewrite Hrev.
Qed.

Lemma filter_none {A} (P : A → Prop) `{!∀ x, Decision (P x)} (l : list A) :
  Forall (λ x, ¬ P x) l → filter P l = [].
Proof.
  induction 1 as [|x l Hx _ IH]; [done|].
  by rewrite filter_cons_False.
Qed.

Lemma calculateTotalRevenue_all_orders db storeId :
  calculateTotalRevenue db storeId = storeRevenue storeId (orders db).
Proof.
  unfold calculateTotalRevenue. by rewrite revenue_fold, storeRevenue_skip.
Qed.

Lemma storeRevenue_unknown storeId os :
  Forall (λ o, Forall (λ i, OrderItem.storeId i ≠ storeId) (Order.items o)) os →
  storeRevenue storeId os = 0.
Proof.
  induction 1 as [|o os Ho _ IH]; [done|].
  rewrite storeRevenue_cons, IH. unfold storeItems.
  by rewrite (filter_none _ _ Ho).
Qed.

Lemma calculateAverageRating_none db storeId :
  noReviews db storeId → calculateAverageRating db storeId = None.
Proof.
  intros H. unfold calculateAverageRating.
  by rewrite (filter_none (λ r, Review.storeId r = storeId) _ H).
Qed.

(** C6. [getMainStatistics] returns four metrics, numbered 1 to 4 and
    named Revenue, Products, Categories, Average rating in that order (it
    is a total function: no path of it throws); for a store without
    reviews the null average is turned into 0; and for a store id that
    nothing in the database refers to all four values are 0. *)
Theorem getMainStatistics_four_metrics (db : DB) (storeId : string) :
  (Metric.name <$> getMainStatistics db storeId
   = ["Revenue"; "Products"; "Categories"; "Average rating"]
   ∧ Metric.id <$> getMainStatistics db storeId = [1; 2; 3; 4])
  ∧ (noReviews db storeId →
     Metric.value <$> getMainStatistics db storeId !! 3%nat = Some 0%Q)
  ∧ (unknownStore db storeId →
     Metric.value <$> getMainStatistics db storeId = [0; 0; 0; 0]%Q).
Proof.
  split; [done|]. split.
  - intros H. unfold getMainStatistics. simpl.
    by rewrite (calculateAverageRating_none _ _ H).
  - intros (Ho & Hp & Hc & Hr). unfold getMainStatistics. csimpl.
    rewrite (calculateAverageRating_none _ _ Hr).
    rewrite calculateTotalRevenue_all_orders, (storeRevenue_unknown _ _ Ho).
    unfold countProducts, countCategories.
    rewrite (filter_none (λ p, Product.storeId p = storeId) _ Hp).
    apply map_Forall_to_list in Hc.
    rewrite (filter_none (λ kv, Category.storeId kv.2 = storeId)
               (map_to_list (categories db))).
    + done.
    + eapply Forall_impl; [exact Hc|]. by intros [k c].
Qed.

Lemma getMainStatistics_four_metrics_witness :
  (noReviews exampleDB "S"
   ∧ Metric.value <$> getMainStatistics exampleDB "S" !! 3%nat = Some 0%Q)
  ∧ (unknownStore exampleDB "U"
     ∧ Metric.value <$> getMainStatistics exampleDB "U" = [0; 0; 0; 0]%Q).
Proof.
  assert (noReviews exampleDB "S") as Hs
    by (apply (bool_decide_unpack _); vm_compute; exact I).
  assert (unknownStore exampleDB "U") as Hu
    by (apply (bool_decide_unpack _); vm_compute; exact I).
  split; (split; [done|]).
  - exact (proj1 (proj2 (getMainStatistics_four_metrics exampleDB "S")) Hs).
  - exact (proj2 (proj2 (getMainStatistics_four_metrics exampleDB "U")) Hu).
Defined.

(** *** The category service *)

Lemma getById_absent id (tbl : gmap string Category.row) :
  tbl !! id = None →
  CategoryService.getById id tbl = (Throw categoryNotFound, tbl).
Proof.
  intros H. unfold CategoryService.getById, mbind, prisma_bind,
    PrismaCategory.findUnique.
  by rewrite H.
Qed.

Lemma getById_present id r (tbl : gmap string Category.row) :
  tbl !! id = Some r →
  CategoryService.getById id tbl = (Ok (Category.mk id r), tbl).
Proof.
  intros H. unfold CategoryService.getById, mbind, prisma_bind,
    PrismaCategory.findUnique.
  by rewrite H.
Qed.

(** C4. On an id absent from the category table [getById] throws
    NotFound, and [update] and [delete] throw the same exception with the
    table exactly as it was. *)
Theorem category_absent_not_found
    (id : string) (dto : CategoryDto.t) (tbl : gmap string Category.row) :
  tbl !! id = None →
  CategoryService.getById id tbl = (Throw categoryNotFound, tbl)
  ∧ CategoryService.update id dto tbl = (Throw categoryNotFound, tbl)
  ∧ CategoryService.delete id tbl = (Throw categoryNotFound, tbl).
Proof.
  intros H. pose proof (getById_absent id tbl H) as Hget.
  split; [done|].
  unfold CategoryService.update, CategoryService.delete, mbind, prisma_bind.
  by rewrite Hget.
Qed.

Lemma category_absent_not_found_witness :
  exampleCategories !! "c2" = None
  ∧ CategoryService.getById "c2" exampleCategories
    = (Throw categoryNotFound, exampleCategories)
  ∧ CategoryService.update "c2" exampleDto exampleCategories
    = (Throw categoryNotFound, exampleCategories)
  ∧ CategoryService.delete "c2" exampleCategories
    = (Throw categoryNotFound, exampleCategories).
Proof.
  assert (exampleCategories !! "c2" = None) as H by reflexivity.
  split; [exact H|].
  exact (category_absent_not_found "c2" exampleDto exampleCategories H).
Defined.

(** C8. When the database hands out an id that is not in use, [create]
    succeeds, and [getById] on the id of the created record succeeds and
    returns that record: the name and slug of the dto and the store id
    passed to [create]. *)
Theorem create_getById_roundtrip
    (newId : gmap string Category.row → string)
    (storeId : string) (dto : CategoryDto.t)
    (tbl : gmap string Category.row) :
  tbl !! newId tbl = None →
  ∃ c tbl',
    CategoryService.create newId storeId dto tbl = (Ok c, tbl')
    ∧ CategoryService.getById (Category.id c) tbl' = (Ok c, tbl')
    ∧ Category.name (Category.data c) = CategoryDto.name dto
    ∧ Category.slug (Category.data c) = CategoryDto.slug dto
    ∧ Category.storeId (Category.data c) = storeId.
Proof.
  intros Hfresh.
  unfold CategoryService.create, PrismaCategory.create. rewrite Hfresh.
  eexists _, _. split; [reflexivity|]. simpl.
  split; [|done].
  apply getById_present. by rewrite lookup_insert_eq.
Qed.

Lemma create_getById_roundtrip_witness :
  exampleCategories !! "c2" = None
  ∧ ∃ c tbl',
      CategoryService.create (λ _, "c2") "S" exampleDto exampleCategories
      = (Ok c, tbl')
      ∧ CategoryService.getById (Category.id c) tbl' = (Ok c, tbl')
      ∧ Category.name (Category.data c) = "Mugs"
      ∧ Category.slug (Category.data c) = "mugs"
      ∧ Category.storeId (Category.data c) = "S".
Proof.
  assert (exampleCategories !! "c2" = None) as H by reflexivity.
  split; [exact H|].
  exact (create_getById_roundtrip (λ _, "c2") "S" exampleDto
           exampleCategories H).
Defined.

(** C10. On an existing category [update] succeeds and writes the name
    and the slug of the dto; the record stays under the same id with the
    same store id, and every other row of the table is untouched. *)
Theorem update_frame
    (id : string) (dto : CategoryDto.t) (r : Category.row)
    (tbl : gmap string Category.row) :
  tbl !! id = Some r →
  ∃ c tbl',
    CategoryService.update id dto tbl = (Ok c, tbl')
    ∧ tbl' !! id = Some (Category.data c)
    ∧ Category.id c = id
    ∧ Category.storeId (Category.data c) = Category.storeId r
    ∧ Category.name (Category.data c) = CategoryDto.name dto
    ∧ Category.slug (Category.data c) = CategoryDto.slug dto
    ∧ (∀ id', id' ≠ id → tbl' !! id' = tbl !! id')
    ∧ dom tbl' = dom tbl.
Proof.
  intros H.
  unfold CategoryService.update, mbind, prisma_bind.
  rewrite (getById_present id r tbl H).
  unfold PrismaCategory.update. rewrite H.
  eexists _, _. split; [reflexivity|]. simpl.
  split; [by rewrite lookup_insert_eq|].
  repeat (split; [done|]).
  split.
  - intros id' Hne. by rewrite lookup_insert_ne.
  - by apply dom_insert_lookup_L.
Qed.

Lemma update_frame_witness :
  exampleCategories !! "c1" = Some (Category.mkRow "T" "Tea" "tea")
  ∧ ∃ c tbl',
      CategoryService.update "c1" exampleDto exampleCategories = (Ok c, tbl')
      ∧ tbl' !! "c1" = Some (Category.data c)
      ∧ Category.id c = "c1"
      ∧ Category.storeId (Category.data c) = "T"
      ∧ Category.name (Category.data c) = "Mugs"
      ∧ Category.slug (Category.data c) = "mugs"
      ∧ (∀ id', id' ≠ "c1" → tbl' !! id' = exampleCategories !! id')
      ∧ dom tbl' = dom exampleCategories.
Proof.
  assert (exampleCategories !! "c1" = Some (Category.mkRow "T" "Tea" "tea"))
    as H by reflexivity.
  split; [exact H|].
  exact (update_frame "c1" exampleDto _ exampleCategories H).
Defined.

(** *** getLastUsers *)

Global Instance createdAtDesc_trans : Transitive createdAtDesc.
Proof. unfold createdAtDesc. intros u v w ??. lia. Qed.

Global Instance createdAtDesc_total : Total createdAtDesc.
Proof. unfold createdAtDesc. intros u v. lia. Qed.

(** The users the query of [getLastUsers] returns, without their orders. *)
Lemma findLastUsers_users db storeId :
  user <$> findLastUsers db storeId
  = take 5 (merge_sort createdAtDesc
              (filter (hasQualifyingOrder db storeId) (users db))).
Proof.
  unfold findLastUsers. rewrite <- list_fmap_compose.
  apply list_fmap_id.
Qed.

Lemma findLastUsers_orders db storeId u :
  u ∈ findLastUsers db storeId →
  hasQualifyingOrder db storeId (user u)
  ∧ user_orders u
    = selectPrices storeId
        <$> filter (qualifyingOrder storeId (user u)) (orders db).
Proof.
  unfold findLastUsers. intros Hu.
  apply list_elem_of_fmap in Hu as (u0 & -> & Hu0). simpl.
  split; [|done].
  apply elem_of_take in Hu0 as (i & Hi & _).
  apply list_elem_of_lookup_2 in Hi.
  rewrite merge_sort_Permutation in Hi.
  by apply list_elem_of_filter in Hi as [? _].
Qed.

Lemma findLastUsers_orders_nonempty db storeId u :
  u ∈ findLastUsers db storeId → user_orders u ≠ [].
Proof.
  intros Hu. apply findLastUsers_orders in Hu as [Hq ->].
  apply Exists_exists in Hq as (o & Ho & Hq).
  intros Hnil. apply fmap_nil_inv in Hnil.
  exact (filter_nil_not_elem_of _ _ o Hnil Hq Ho).
Qed.

Lemma lastUserTotal_ok u :
  user_orders u ≠ [] →
  ∃ lu, lastUserTotal u = Ok lu
        ∧ LastUser.id lu = User.id (user u)
        ∧ LastUser.name lu = User.name (user u)
        ∧ LastUser.email lu = User.email (user u)
        ∧ LastUser.picture lu = User.picture (user u).
Proof.
  intros Hne. apply last_is_Some in Hne as [o Ho].
  unfold lastUserTotal. rewrite Ho. eauto 10.
Qed.

Lemma lastUserTotal_throws u e :
  lastUserTotal u = Throw e → e = TypeError.
Proof.
  unfold lastUserTotal. destruct (last (user_orders u)); congruence.
Qed.

Lemma exc_mapM_ok {A B} (f : A → Exc B) (P : A → B → Prop) (l : list A) :
  (∀ x, x ∈ l → ∃ y, f x = Ok y ∧ P x y) →
  ∃ ys, exc_mapM f l = Ok ys ∧ Forall2 P l ys.
Proof.
  induction l as [|x l IH]; intros H; simpl.
  - by exists [].
  - destruct (H x) as (y & -> & Hy); [by left|].
    destruct IH as (ys & -> & Hys).
    { intros x' Hx'. apply H. by right. }
    exists (y :: ys). split; [done|]. by constructor.
Qed.

Lemma mapM_lastUserTotal_throws us u :
  u ∈ us → user_orders u = [] → exc_mapM lastUserTotal us = Throw TypeError.
Proof.
  intros Hu Hnil. induction Hu as [u us|u u' us Hu IH]; simpl.
  - unfold lastUserTotal at 1. by rewrite Hnil.
  - destruct (lastUserTotal u') as [lu|e] eqn:E; simpl.
    + by rewrite IH.
    + by rewrite (lastUserTotal_throws _ _ E).
Qed.

Lemma getLastUsers_ok db storeId :
  ∃ out,
    getLastUsers db storeId = Ok out
    ∧ Forall2
        (λ u lu,
           LastUser.id lu = User.id u ∧ LastUser.name lu = User.name u
           ∧ LastUser.email lu = User.email u
           ∧ LastUser.picture lu = User.picture u)
        (user <$> findLastUsers db storeId) out.
Proof.
  unfold getLastUsers.
  destruct (exc_mapM_ok lastUserTotal
              (λ u lu,
                 LastUser.id lu = User.id (user u)
                 ∧ LastUser.name lu = User.name (user u)
                 ∧ LastUser.email lu = User.email (user u)
                 ∧ LastUser.picture lu = User.picture (user u))
              (findLastUsers db storeId)) as (out & Hout & Hall).
  { intros u Hu. apply lastUserTotal_ok.
    by eapply findLastUsers_orders_nonempty. }
  exists out. split; [done|]. by apply Forall2_fmap_l.
Qed.

(** C5. [getLastUsers] returns at most 5 users.  They are, field for
    field, users of the database that placed an order holding an item of
    the store; they come newest registration first; and any such user that
    is left out registered no later than each of the returned ones.
    Nobody is returned twice over, and fewer than 5 come back only when
    fewer than 5 users qualify. *)
Theorem getLastUsers_newest_five (db : DB) (storeId : string) :
  ∃ out,
    getLastUsers db storeId = Ok out
    ∧ (length out ≤ 5)%nat
    ∧ let us := user <$> findLastUsers db storeId in
      let matching := filter (hasQualifyingOrder db storeId) (users db) in
      Forall2
        (λ u lu,
           LastUser.id lu = User.id u ∧ LastUser.name lu = User.name u
           ∧ LastUser.email lu = User.email u
           ∧ LastUser.picture lu = User.picture u)
        us out
      ∧ (∀ u, u ∈ us → u ∈ users db ∧ hasQualifyingOrder db storeId u)
      ∧ StronglySorted createdAtDesc us
      ∧ (∀ u v, u ∈ us → v ∈ matching → v ∉ us →
                User.createdAt v ≤ User.createdAt u)
      ∧ us ⊆+ matching
      ∧ length us = (5 `min` length matching)%nat.
Proof.
  destruct (getLastUsers_ok db storeId) as (out & Hout & Hall).
  exists out. split; [done|].
  pose proof (Forall2_length _ _ _ Hall) as Hlen.
  rewrite findLastUsers_users in *.
  set (matching := filter (hasQualifyingOrder db storeId) (users db)) in *.
  set (sorted := merge_sort createdAtDesc matching) in *.
  assert (sorted ≡ₚ matching) as Hperm by apply merge_sort_Permutation.
  assert (StronglySorted createdAtDesc (take 5 sorted ++ drop 5 sorted))
    as Hsorted.
  { rewrite take_drop. apply StronglySorted_merge_sort; apply _. }
  split. { rewrite <- Hlen, length_take. lia. }
  cbv zeta. split; [done|]. split; [|split; [|split; [|split]]].
  - intros u Hu.
    assert (u ∈ matching) as Hm.
    { rewrite <- Hperm, <- (take_drop 5 sorted). apply elem_of_app. by left. }
    apply list_elem_of_filter in Hm. tauto.
  - by eapply StronglySorted_app_1_l.
  - intros u v Hu Hv Hnot.
    rewrite <- Hperm, <- (take_drop 5 sorted) in Hv.
    apply elem_of_app in Hv as [Hv|Hv]; [done|].
    exact (StronglySorted_app_1_elem_of _ _ _ _ _ Hsorted Hu Hv).
  - rewrite <- Hperm. apply submseteq_take.
  - by rewrite length_take, <- Hperm.
Qed.

(** What the annotation of a returned user is: the prices, not multiplied
    by the quantities, of the store's items in the last qualifying order in
    table order. *)
Lemma lastUserTotal_sums_prices db storeId u :
  u ∈ findLastUsers db storeId →
  ∃ o lu,
    last (filter (qualifyingOrder storeId (user u)) (orders db)) = Some o
    ∧ lastUserTotal u = Ok lu
    ∧ LastUser.total lu = sumZ (OrderItem.price <$> storeItems storeId o).
Proof.
  intros Hu. apply findLastUsers_orders in Hu as [Hq Horders].
  unfold lastUserTotal. rewrite Horders, fmap_last.
  destruct (last _) as [o|] eqn:Hlast.
  - exists o. eexists. split; [done|]. split; [done|]. simpl.
    rewrite (fold_left_add price), <- list_fmap_compose.
    apply Z.add_0_l.
  - apply last_None in Hlast.
    apply Exists_exists in Hq as (o & Ho & Hq).
    by destruct (filter_nil_not_elem_of _ _ o Hlast Hq Ho).
Qed.

(** C3. On the example database the user of order A (one item of store S,
    price 10, quantity 2) is annotated with 10, the sum of the prices, where
    price times quantity gives 20. *)
Theorem getLastUsers_total_ignores_quantity :
  getLastUsers exampleDB "S"
  = Ok [LastUser.mk "u2" "Bob" "bob@shop" "bob.png" 3;
        LastUser.mk "u1" "Ann" "ann@shop" "ann.png" 10]
  ∧ sumZ (lineTotal <$> [OrderItem.mk 10 2 "S"]) = 20.
Proof. split; reflexivity. Qed.

(** *** calculateMonthlySales *)

Lemma formatDate_dayLabel clk t : formatDate clk t = dayLabel (localDay clk t).
Proof. reflexivity. Qed.

Lemma sales_window_days clk t :
  startDate clk ≤ t ∧ t ≤ endDate clk
  ↔ localDay clk (now clk) - 30 ≤ localDay clk t ≤ localDay clk (now clk).
Proof.
  unfold startDate, endDate, startOfDay, endOfDay, localDay, msPerDay.
  generalize ((now clk + utcOffset clk) `div` 86400000). intros today.
  pose proof (Z.div_mod (t + utcOffset clk) 86400000 ltac:(lia)).
  pose proof (Z.mod_pos_bound (t + utcOffset clk) 86400000 ltac:(lia)).
  lia.
Qed.

Section SalesByDate.
Variable clk : Clock.

Lemma set_keys (m : Js.Map) k v x :
  x ∈ (Js.set m k v).*1 ↔ x = k ∨ x ∈ m.*1.
Proof.
  induction m as [|[k' v'] m IH]; simpl.
  - rewrite list_elem_of_singleton, elem_of_nil. tauto.
  - case_decide; subst; csimpl; rewrite !elem_of_cons; [tauto|].
    rewrite IH. tauto.
Qed.

Lemma set_NoDup (m : Js.Map) k v : NoDup m.*1 → NoDup (Js.set m k v).*1.
Proof.
  induction m as [|[k' v'] m IH]; simpl; intros Hm.
  - apply NoDup_singleton.
  - apply NoDup_cons in Hm as [Hk' Hm].
    case_decide; subst; csimpl; apply NoDup_cons; [done|].
    split; [|by apply IH].
    rewrite set_keys. intros [->|?]; done.
Qed.

Lemma get_set (m : Js.Map) k v k' :
  Js.get (Js.set m k v) k' = if decide (k = k') then Some v else Js.get m k'.
Proof.
  induction m as [|[k0 v0] m IH]; simpl.
  - done.
  - destruct (decide (k0 = k)) as [->|Hne]; simpl.
    + by destruct (decide (k = k')).
    + rewrite IH. destruct (decide (k0 = k')) as [->|]; [|done].
      by rewrite decide_False by done.
Qed.

Lemma has_get (m : Js.Map) k :
  Js.has m k = false → Js.get m k = None.
Proof.
  induction m as [|[k0 v0] m IH]; simpl; [done|].
  by case_decide.
Qed.

Lemma get_elem_of (m : Js.Map) k v :
  NoDup m.*1 → (k, v) ∈ m → Js.get m k = Some v.
Proof.
  induction m as [|[k0 v0] m IH]; simpl; intros Hm Hin.
  - by apply not_elem_of_nil in Hin.
  - apply NoDup_cons in Hm as [Hk0 Hm].
    apply elem_of_cons in Hin as [[= -> ->]|Hin].
    + by rewrite decide_True.
    + rewrite decide_False; [by apply IH|].
      intros ->. apply Hk0. apply list_elem_of_fmap. by exists (k, v).
Qed.

Lemma addSale_keys (m : Js.Map) o x :
  x ∈ (addSale clk m o).*1
  ↔ x = formatDate clk (Order.createdAt o) ∨ x ∈ m.*1.
Proof. unfold addSale. destruct (Js.has _ _); apply set_keys. Qed.

Lemma addSale_NoDup (m : Js.Map) o : NoDup m.*1 → NoDup (addSale clk m o).*1.
Proof. unfold addSale. destruct (Js.has _ _); apply set_NoDup. Qed.

Lemma addSale_value (m : Js.Map) o k :
  default 0 (Js.get (addSale clk m o) k)
  = default 0 (Js.get m k)
    + (if decide (formatDate clk (Order.createdAt o) = k)
       then orderTotal o else 0).
Proof.
  unfold addSale. destruct (Js.has _ _) eqn:Hhas; rewrite get_set.
  - case_decide; subst; simpl; lia.
  - case_decide; subst; simpl; [|lia].
    rewrite (has_get _ _ Hhas). simpl. lia.
Qed.

Lemma salesByDate_keys (os : list Order.t) (m : Js.Map) x :
  x ∈ (fold_left (addSale clk) os m).*1
  ↔ x ∈ m.*1 ∨ ∃ o, o ∈ os ∧ formatDate clk (Order.createdAt o) = x.
Proof.
  revert m. induction os as [|o os IH]; intros m; simpl.
  - split; [by left|]. intros [?|(o & Ho & _)]; [done|].
    by apply not_elem_of_nil in Ho.
  - rewrite IH, addSale_keys. split.
    + intros [[->|?]|(o' & Ho' & <-)]; [right|by left|right].
      * exists o. split; [by left|done].
      * exists o'. split; [by right|done].
    + intros [?|(o' & Ho' & <-)]; [by left; right|].
      apply elem_of_cons in Ho' as [->|Ho']; [by left; left|].
      right. by exists o'.
Qed.

Lemma salesByDate_NoDup (os : list Order.t) (m : Js.Map) :
  NoDup m.*1 → NoDup (fold_left (addSale clk) os m).*1.
Proof.
  revert m. induction os as [|o os IH]; intros m Hm; simpl; [done|].
  by apply IH, addSale_NoDup.
Qed.

Lemma salesByDate_value (os : list Order.t) (m : Js.Map) k :
  default 0 (Js.get (fold_left (addSale clk) os m) k)
  = default 0 (Js.get m k)
    + sumZ (orderTotal
              <$> filter (λ o, formatDate clk (Order.createdAt o) = k) os).
Proof.
  revert m. induction os as [|o os IH]; intros m; simpl.
  - unfold sumZ. simpl. lia.
  - rewrite IH, addSale_value, filter_cons.
    case_decide; csimpl; unfold sumZ; simpl; lia.
Qed.
End SalesByDate.

Lemma orderTotal_all_items o :
  orderTotal o = sumZ (lineTotal <$> Order.items o).
Proof. unfold orderTotal. rewrite (fold_left_add lineTotal). lia. Qed.

Lemma monthlySales_entry clk db storeId e :
  e ∈ calculateMonthlySales clk db storeId →
  (DailySales.date e, DailySales.value e)
  ∈ fold_left (addSale clk) (filter (inSalesWindow clk storeId) (orders db)) [].
Proof.
  unfold calculateMonthlySales. intros He.
  apply list_elem_of_fmap in He as ([k v] & -> & Hkv). done.
Qed.

(** What an entry of the daily series holds: the line totals of every item,
    of whatever store, of the orders in the window that fall on its day. *)
Lemma monthlySales_value clk db storeId e :
  e ∈ calculateMonthlySales clk db storeId →
  DailySales.value e
  = sumZ ((λ o, sumZ (lineTotal <$> Order.items o))
            <$> filter (λ o, formatDate clk (Order.createdAt o)
                             = DailySales.date e)
                  (filter (inSalesWindow clk storeId) (orders db))).
Proof.
  intros He. apply monthlySales_entry in He.
  apply get_elem_of in He; [|apply salesByDate_NoDup, NoDup_nil_2].
  pose proof (salesByDate_value clk
                (filter (inSalesWindow clk storeId) (orders db)) []
                (DailySales.date e)) as Hv.
  rewrite He in Hv. simpl in Hv. rewrite Hv, Z.add_0_l.
  f_equal. apply list_fmap_ext. intros _ o _. apply orderTotal_all_items.
Qed.

(** C1. On the spec's example the daily series has one entry, for today,
    and its value is 28: the item of the other store in order A (5, once)
    is counted, where the store's own items come to 23, which is what
    [calculateTotalRevenue] reports. *)
Theorem calculateMonthlySales_counts_other_stores :
  calculateMonthlySales exampleClock exampleDB "S"
  = [DailySales.mk "2 nov" 28]
  ∧ calculateTotalRevenue exampleDB "S" = 23.
Proof. split; reflexivity. Qed.

(** C7. Every entry of the daily series is the day of an order of the
    database that holds an item of the store and was placed between the
    start of the day 30 days before today and the end of today, that is on
    one of the 31 local days ending today; a label that no such order
    carries has no entry. *)
Theorem calculateMonthlySales_window (clk : Clock) (db : DB) (storeId : string) :
  let today := localDay clk (now clk) in
  (∀ e, e ∈ calculateMonthlySales clk db storeId →
     ∃ o, o ∈ orders db ∧ hasStoreItem storeId o
          ∧ startOfDay clk (today - 30) ≤ Order.createdAt o ≤ endOfDay clk today
          ∧ today - 30 ≤ localDay clk (Order.createdAt o) ≤ today
          ∧ DailySales.date e = dayLabel (localDay clk (Order.createdAt o)))
  ∧ (∀ label,
       (∀ o, o ∈ orders db → inSalesWindow clk storeId o →
             formatDate clk (Order.createdAt o) ≠ label) →
       label ∉ DailySales.date <$> calculateMonthlySales clk db storeId).
Proof.
  intros today.
  assert (∀ label,
            label ∈ DailySales.date <$> calculateMonthlySales clk db storeId →
            ∃ o, o ∈ orders db ∧ inSalesWindow clk storeId o
                 ∧ formatDate clk (Order.createdAt o) = label) as Hkey.
  { intros label Hl. unfold calculateMonthlySales in Hl.
    rewrite <- list_fmap_compose in Hl.
    change (label ∈ (fold_left (addSale clk)
                       (filter (inSalesWindow clk storeId) (orders db)) []).*1)
      in Hl.
    apply salesByDate_keys in Hl as [Hl|(o & Ho & Hlabel)].
    - by apply not_elem_of_nil in Hl.
    - apply list_elem_of_filter in Ho as [Hw Ho]. eauto. }
  split.
  - intros e He.
    destruct (Hkey (DailySales.date e)) as (o & Ho & Hw & Hlabel).
    { apply list_elem_of_fmap. by exists e. }
    exists o. destruct Hw as (Hlo & Hhi & Hstore).
    split; [done|]. split; [done|]. split; [done|].
    split; [by apply sales_window_days|].
    by rewrite <- Hlabel.
  - intros label Hnone Hin.
    destruct (Hkey label Hin) as (o & Ho & Hw & Hlabel).
    by apply (Hnone o).
Qed.

Lemma calculateMonthlySales_window_witness :
  (DailySales.mk "2 nov" 28 ∈ calculateMonthlySales exampleClock exampleDB "S"
   ∧ ∃ o, o ∈ orders exampleDB ∧ hasStoreItem "S" o
          ∧ 1790978400000 ≤ Order.createdAt o ≤ 1793656799999
          ∧ 20729 ≤ localDay exampleClock (Order.createdAt o) ≤ 20759
          ∧ "2 nov" = dayLabel (localDay exampleClock (Order.createdAt o)))
  ∧ (∀ o, o ∈ orders exampleDB → inSalesWindow exampleClock "S" o →
          formatDate exampleClock (Order.createdAt o) ≠ "1 nov")
  ∧ "1 nov" ∉ DailySales.date <$> calculateMonthlySales exampleClock exampleDB "S".
Proof.
  assert (DailySales.mk "2 nov" 28
          ∈ calculateMonthlySales exampleClock exampleDB "S") as He
    by apply list_elem_of_here.
  split.
  { split; [exact He|].
    exact (proj1 (calculateMonthlySales_window exampleClock exampleDB "S")
             _ He). }
  assert (∀ o, o ∈ orders exampleDB → inSalesWindow exampleClock "S" o →
               formatDate exampleClock (Order.createdAt o) ≠ "1 nov") as H.
  { intros o Ho _. simpl in Ho.
    apply elem_of_cons in Ho as [->|Ho]; [by vm_compute|].
    apply list_elem_of_singleton in Ho as ->. by vm_compute. }
  split; [exact H|].
  exact (proj2 (calculateMonthlySales_window exampleClock exampleDB "S")
           "1 nov" H).
Defined.

(** C9. When the query of [calculateMonthlySales] returns no order the
    daily series that [getMiddleStatistics] hands back is empty.  If the
    list mapped over by [getLastUsers] held a user with no orders the read
    of the last order would throw a [TypeError]; every user the query
    returns comes with at least one order, so [getLastUsers] and
    [getMiddleStatistics] return normally. *)
Theorem trends_empty_and_last_order_read
    (clk : Clock) (db : DB) (storeId : string) :
  (filter (inSalesWindow clk storeId) (orders db) = [] →
   calculateMonthlySales clk db storeId = []
   ∧ ∃ lu, getMiddleStatistics clk db storeId = Ok (mkMiddleStatistics [] lu))
  ∧ (∀ us u, u ∈ us → user_orders u = [] →
             exc_mapM lastUserTotal us = Throw TypeError)
  ∧ (∀ u, u ∈ findLastUsers db storeId → user_orders u ≠ [])
  ∧ (∃ out, getLastUsers db storeId = Ok out)
  ∧ (∃ r, getMiddleStatistics clk db storeId = Ok r).
Proof.
  destruct (getLastUsers_ok db storeId) as (out & Hout & _).
  split; [|split; [|split; [|split]]].
  - intros Hempty.
    assert (calculateMonthlySales clk db storeId = []) as Hsales.
    { unfold calculateMonthlySales. by rewrite Hempty. }
    split; [done|]. exists out.
    unfold getMiddleStatistics. by rewrite Hout, Hsales.
  - apply mapM_lastUserTotal_throws.
  - intros u. apply findLastUsers_orders_nonempty.
  - by exists out.
  - unfold getMiddleStatistics. rewrite Hout. simpl. eauto.
Qed.

Lemma trends_empty_and_last_order_read_witness :
  filter (inSalesWindow exampleClock "S") (orders emptyDB) = []
  ∧ calculateMonthlySales exampleClock emptyDB "S" = []
  ∧ userWithoutOrders ∈ [userWithoutOrders]
  ∧ user_orders userWithoutOrders = []
  ∧ exc_mapM lastUserTotal [userWithoutOrders] = Throw TypeError.
Proof.
  pose proof (trends_empty_and_last_order_read exampleClock emptyDB "S")
    as (Hempty & Hthrow & _).
  assert (filter (inSalesWindow exampleClock "S") (orders emptyDB) = [])
    as H1 by reflexivity.
  assert (userWithoutOrders ∈ [userWithoutOrders]) as H2
    by apply list_elem_of_here.
  assert (user_orders userWithoutOrders = []) as H3 by reflexivity.
  split; [exact H1|]. split; [exact (proj1 (Hempty H1))|].
  split; [exact H2|]. split; [exact H3|].
  exact (Hthrow [userWithoutOrders] userWithoutOrders H2 H3).
Defined.

(** ** Further properties of the category service *)

Lemma update_present id dto r (tbl : gmap string Category.row) :
  tbl !! id = Some r →
  CategoryService.update id dto tbl
  = (Ok (Category.mk id
           (Category.mkRow (Category.storeId r)
              (CategoryDto.name dto) (CategoryDto.slug dto))),
     <[id := Category.mkRow (Category.storeId r)
               (CategoryDto.name dto) (CategoryDto.slug dto)]> tbl).
Proof.
  intros H. unfold CategoryService.update, mbind, prisma_bind.
  rewrite (getById_present id r tbl H).
  unfold PrismaCategory.update. by rewrite H.
Qed.

Lemma delete_present id r (tbl : gmap string Category.row) :
  tbl !! id = Some r →
  CategoryService.delete id tbl = (Ok (Category.mk id r), delete id tbl).
Proof.
  intros H. unfold CategoryService.delete, mbind, prisma_bind.
  rewrite (getById_present id r tbl H).
  unfold PrismaCategory.delete. by rewrite H.
Qed.

Lemma create_fresh newId storeId dto (tbl : gmap string Category.row) :
  tbl !! newId tbl = None →
  CategoryService.create newId storeId dto tbl
  = (Ok (Category.mk (newId tbl)
           (Category.mkRow storeId (CategoryDto.name dto)
              (CategoryDto.slug dto))),
     <[newId tbl := Category.mkRow storeId (CategoryDto.name dto)
                      (CategoryDto.slug dto)]> tbl).
Proof.
  intros H. unfold CategoryService.create, PrismaCategory.create.
  by rewrite H.
Qed.

Lemma storeCategories_elem storeId (tbl : gmap string Category.row) c :
  c ∈ (λ kv, Category.mk kv.1 kv.2)
        <$> filter (λ kv, Category.storeId kv.2 = storeId) (map_to_list tbl)
  ↔ tbl !! Category.id c = Some (Category.data c)
    ∧ Category.storeId (Category.data c) = storeId.
Proof.
  rewrite list_elem_of_fmap. split.
  - intros ([k r] & -> & Hkr). apply list_elem_of_filter in Hkr as [Hs Hkr].
    apply elem_of_map_to_list in Hkr. done.
  - intros [Hc Hs]. exists (Category.id c, Category.data c).
    split; [by destruct c|].
    apply list_elem_of_filter. split; [done|]. by apply elem_of_map_to_list.
Qed.

(** X1. [getManyByStoreId] returns normally and leaves the table as it
    is; a category is in the list exactly when it is a row of the table
    whose store is the one asked for, and no id is listed twice. *)
Theorem getManyByStoreId_exact
    (storeId : string) (tbl : gmap string Category.row) :
  ∃ cs,
    CategoryService.getManyByStoreId storeId tbl = (Ok cs, tbl)
    ∧ NoDup (Category.id <$> cs)
    ∧ ∀ c, c ∈ cs
           ↔ tbl !! Category.id c = Some (Category.data c)
             ∧ Category.storeId (Category.data c) = storeId.
Proof.
  eexists. split; [reflexivity|]. split.
  - rewrite <- list_fmap_compose.
    apply (sublist_NoDup _ ((map_to_list tbl).*1));
      [apply NoDup_fst_map_to_list|].
    apply (fmap_sublist fst), sublist_filter.
  - apply storeCategories_elem.
Qed.

(** X2. [delete] on an existing id returns the removed record and takes
    exactly that row out of the table; afterwards [getById] and a second
    [delete] on the id throw NotFound. *)
Theorem delete_removes
    (id : string) (r : Category.row) (tbl : gmap string Category.row) :
  tbl !! id = Some r →
  ∃ tbl',
    CategoryService.delete id tbl = (Ok (Category.mk id r), tbl')
    ∧ tbl' !! id = None
    ∧ (∀ id', id' ≠ id → tbl' !! id' = tbl !! id')
    ∧ CategoryService.getById id tbl' = (Throw categoryNotFound, tbl')
    ∧ CategoryService.delete id tbl' = (Throw categoryNotFound, tbl').
Proof.
  intros H. exists (delete id tbl).
  assert (delete id tbl !! id = None) as Hgone by apply lookup_delete_eq.
  split; [by apply delete_present|]. split; [done|]. split.
  - intros id' Hne. by apply lookup_delete_ne.
  - pose proof (getById_absent id _ Hgone) as Hget. split; [done|].
    unfold CategoryService.delete, mbind, prisma_bind. by rewrite Hget.
Qed.

Lemma delete_removes_witness :
  exampleCategories !! "c1" = Some (Category.mkRow "T" "Tea" "tea")
  ∧ ∃ tbl',
      CategoryService.delete "c1" exampleCategories
      = (Ok (Category.mk "c1" (Category.mkRow "T" "Tea" "tea")), tbl')
      ∧ tbl' !! "c1" = None
      ∧ (∀ id', id' ≠ "c1" → tbl' !! id' = exampleCategories !! id')
      ∧ CategoryService.getById "c1" tbl' = (Throw categoryNotFound, tbl')
      ∧ CategoryService.delete "c1" tbl' = (Throw categoryNotFound, tbl').
Proof.
  assert (exampleCategories !! "c1" = Some (Category.mkRow "T" "Tea" "tea"))
    as H by reflexivity.
  split; [exact H|].
  exact (delete_removes "c1" _ exampleCategories H).
Defined.

(** X3. After [update] on an existing id, [getById] returns the record
    that [update] returned, and running the same [update] again changes
    nothing. *)
Theorem update_then_getById
    (id : string) (dto : CategoryDto.t) (r : Category.row)
    (tbl : gmap string Category.row) :
  tbl !! id = Some r →
  ∃ c tbl',
    CategoryService.update id dto tbl = (Ok c, tbl')
    ∧ CategoryService.getById id tbl' = (Ok c, tbl')
    ∧ CategoryService.update id dto tbl' = (Ok c, tbl').
Proof.
  intros H. eexists _, _. split; [by apply update_present|]. split.
  - apply getById_present. by rewrite lookup_insert_eq.
  - erewrite update_present; [|by rewrite lookup_insert_eq].
    simpl. by rewrite insert_insert_eq.
Qed.

Lemma update_then_getById_witness :
  exampleCategories !! "c1" = Some (Category.mkRow "T" "Tea" "tea")
  ∧ ∃ c tbl',
      CategoryService.update "c1" exampleDto exampleCategories = (Ok c, tbl')
      ∧ CategoryService.getById "c1" tbl' = (Ok c, tbl')
      ∧ CategoryService.update "c1" exampleDto tbl' = (Ok c, tbl').
Proof.
  assert (exampleCategories !! "c1" = Some (Category.mkRow "T" "Tea" "tea"))
    as H by reflexivity.
  split; [exact H|].
  exact (update_then_getById "c1" exampleDto _ exampleCategories H).
Defined.

(** X4. Of two updates of an existing category in a row the second one
    wins: the result and the table are those of the second update alone. *)
Theorem update_last_wins
    (id : string) (dto1 dto2 : CategoryDto.t) (r : Category.row)
    (tbl : gmap string Category.row) :
  tbl !! id = Some r →
  ∃ c1 tbl1,
    CategoryService.update id dto1 tbl = (Ok c1, tbl1)
    ∧ CategoryService.update id dto2 tbl1
      = CategoryService.update id dto2 tbl.
Proof.
  intros H. eexists _, _. split; [by apply update_present|].
  erewrite update_present; [|by rewrite lookup_insert_eq].
  rewrite (update_present id dto2 r tbl H). simpl.
  by rewrite insert_insert_eq.
Qed.

Lemma update_last_wins_witness :
  exampleCategories !! "c1" = Some (Category.mkRow "T" "Tea" "tea")
  ∧ ∃ c1 tbl1,
      CategoryService.update "c1" exampleDto exampleCategories = (Ok c1, tbl1)
      ∧ CategoryService.update "c1" (CategoryDto.mk "Cups" "cups") tbl1
        = CategoryService.update "c1" (CategoryDto.mk "Cups" "cups")
            exampleCategories.
Proof.
  assert (exampleCategories !! "c1" = Some (Category.mkRow "T" "Tea" "tea"))
    as H by reflexivity.
  split; [exact H|].
  exact (update_last_wins "c1" exampleDto (CategoryDto.mk "Cups" "cups") _
           exampleCategories H).
Defined.

(** X5. When the database hands out an unused id, [delete] on the id of
    the record that [create] returned gives that record back and the table
    is again what it was before the [create]. *)
Theorem create_then_delete
    (newId : gmap string Category.row → string)
    (storeId : string) (dto : CategoryDto.t)
    (tbl : gmap string Category.row) :
  tbl !! newId tbl = None →
  ∃ c tbl',
    CategoryService.create newId storeId dto tbl = (Ok c, tbl')
    ∧ CategoryService.delete (Category.id c) tbl' = (Ok c, tbl).
Proof.
  intros H. eexists _, _. split; [by apply create_fresh|]. simpl.
  erewrite delete_present; [|by rewrite lookup_insert_eq].
  by rewrite delete_insert_eq, delete_id.
Qed.

Lemma create_then_delete_witness :
  exampleCategories !! "c2" = None
  ∧ ∃ c tbl',
      CategoryService.create (λ _, "c2") "S" exampleDto exampleCategories
      = (Ok c, tbl')
      ∧ CategoryService.delete (Category.id c) tbl'
        = (Ok c, exampleCategories).
Proof.
  assert (exampleCategories !! "c2" = None) as H by reflexivity.
  split; [exact H|].
  exact (create_then_delete (λ _, "c2") "S" exampleDto exampleCategories H).
Defined.

(** X6. Whenever [update] or [delete] throws, the exception is the
    NotFound of [getById], the id is absent and the table is unchanged: the
    client's own record-not-found error is never reached. *)
Theorem update_delete_fail_clean
    (id : string) (dto : CategoryDto.t) (e : Error)
    (tbl tbl' : gmap string Category.row) :
  CategoryService.update id dto tbl = (Throw e, tbl')
  ∨ CategoryService.delete id tbl = (Throw e, tbl') →
  e = categoryNotFound ∧ tbl' = tbl ∧ tbl !! id = None.
Proof.
  destruct (tbl !! id) as [r|] eqn:Hid.
  - rewrite (update_present id dto r tbl Hid), (delete_present id r tbl Hid).
    intros [?|?]; congruence.
  - unfold CategoryService.update, CategoryService.delete, mbind, prisma_bind.
    rewrite (getById_absent id tbl Hid).
    intros [[= <- <-]|[= <- <-]]; done.
Qed.

Lemma update_delete_fail_clean_witness :
  (CategoryService.update "c2" exampleDto exampleCategories
   = (Throw categoryNotFound, exampleCategories)
   ∨ CategoryService.delete "c2" exampleCategories
     = (Throw categoryNotFound, exampleCategories))
  ∧ categoryNotFound = categoryNotFound
  ∧ exampleCategories = exampleCategories
  ∧ exampleCategories !! "c2" = None.
Proof.
  assert (CategoryService.update "c2" exampleDto exampleCategories
          = (Throw categoryNotFound, exampleCategories)
          ∨ CategoryService.delete "c2" exampleCategories
            = (Throw categoryNotFound, exampleCategories)) as H
    by (left; reflexivity).
  split; [exact H|].
  exact (update_delete_fail_clean "c2" exampleDto _ _ _ H).
Defined.

(** *** The listing and the Categories metric under create, update, delete *)

Lemma storeRows_insert storeId id r (tbl : gmap string Category.row) :
  tbl !! id = None →
  filter (λ kv, Category.storeId kv.2 = storeId) (map_to_list (<[id := r]> tbl))
  ≡ₚ filter (λ kv, Category.storeId kv.2 = storeId)
       ((id, r) :: map_to_list tbl).
Proof. intros H. by rewrite (map_to_list_insert tbl id r H). Qed.

Lemma storeRows_delete storeId id r (tbl : gmap string Category.row) :
  tbl !! id = Some r →
  filter (λ kv, Category.storeId kv.2 = storeId) (map_to_list tbl)
  ≡ₚ filter (λ kv, Category.storeId kv.2 = storeId)
       ((id, r) :: map_to_list (delete id tbl)).
Proof. intros H. by rewrite (map_to_list_delete tbl id r H). Qed.

Lemma countCategories_rows db storeId :
  countCategories db storeId
  = Z.of_nat
      (length (filter (λ kv, Category.storeId kv.2 = storeId)
                 (map_to_list (categories db)))).
Proof. reflexivity. Qed.

(** X7. When the database hands out an unused id, the listing of the
    store after [create] is the listing before it plus the created record
    (in some order), the listings of the other stores hold what they held,
    and no existing row is touched. *)
Theorem create_listed
    (newId : gmap string Category.row → string)
    (storeId : string) (dto : CategoryDto.t)
    (tbl : gmap string Category.row) :
  tbl !! newId tbl = None →
  ∃ c tbl',
    CategoryService.create newId storeId dto tbl = (Ok c, tbl')
    ∧ (∀ id r, tbl !! id = Some r → tbl' !! id = Some r)
    ∧ ∀ storeId', ∃ before after,
        CategoryService.getManyByStoreId storeId' tbl = (Ok before, tbl)
        ∧ CategoryService.getManyByStoreId storeId' tbl' = (Ok after, tbl')
        ∧ after ≡ₚ (if decide (storeId' = storeId) then c :: before
                    else before).
Proof.
  intros H. eexists _, _. split; [by apply create_fresh|]. split.
  - intros id r Hid. rewrite lookup_insert_ne; [done|]. congruence.
  - intros storeId'. eexists _, _. split; [reflexivity|].
    split; [reflexivity|].
    rewrite (storeRows_insert storeId' _ _ tbl H), filter_cons. simpl.
    case_decide as Hs; case_decide as Hs'; subst; done.
Qed.

Lemma create_listed_witness :
  exampleCategories !! "c2" = None
  ∧ ∃ c tbl',
      CategoryService.create (λ _, "c2") "S" exampleDto exampleCategories
      = (Ok c, tbl')
      ∧ (∀ id r, exampleCategories !! id = Some r → tbl' !! id = Some r)
      ∧ ∀ storeId', ∃ before after,
          CategoryService.getManyByStoreId storeId' exampleCategories
          = (Ok before, exampleCategories)
          ∧ CategoryService.getManyByStoreId storeId' tbl' = (Ok after, tbl')
          ∧ after ≡ₚ (if decide (storeId' = "S") then c :: before
                      else before).
Proof.
  assert (exampleCategories !! "c2" = None) as H by reflexivity.
  split; [exact H|].
  exact (create_listed (λ _, "c2") "S" exampleDto exampleCategories H).
Defined.

(** X8. The Categories metric of [getMainStatistics] is the length of the
    listing [getManyByStoreId] gives for the store.  It goes up by one for
    the store of a [create], down by one for the store of a deleted
    category, stays as it is for the other stores, and no [update] changes
    it. *)
Theorem categories_metric_tracks_service
    (newId : gmap string Category.row → string)
    (db : DB) (storeId : string) (dto : CategoryDto.t) :
  (∃ cs,
     CategoryService.getManyByStoreId storeId (categories db)
     = (Ok cs, categories db)
     ∧ Metric.value <$> getMainStatistics db storeId !! 2%nat
       = Some (inject_Z (Z.of_nat (length cs))))
  ∧ (categories db !! newId (categories db) = None →
     ∀ storeId',
       countCategories
         (withCategories db
            (CategoryService.create newId storeId dto (categories db)).2)
         storeId'
       = countCategories db storeId'
         + (if decide (storeId' = storeId) then 1 else 0))
  ∧ (∀ id r storeId',
       categories db !! id = Some r →
       countCategories
         (withCategories db (CategoryService.delete id (categories db)).2)
         storeId'
       = countCategories db storeId'
         - (if decide (Category.storeId r = storeId') then 1 else 0))
  ∧ (∀ id storeId',
       countCategories
         (withCategories db (CategoryService.update id dto (categories db)).2)
         storeId'
       = countCategories db storeId').
Proof.
  split; [|split; [|split]].
  - eexists. split; [reflexivity|].
    simpl. unfold countCategories. by rewrite length_fmap.
  - intros H storeId'. rewrite (create_fresh _ _ _ _ H).
    rewrite !countCategories_rows. simpl.
    rewrite (storeRows_insert storeId' _ _ _ H), filter_cons. simpl.
    repeat case_decide; subst; simpl; try done; lia.
  - intros id r storeId' Hid. rewrite (delete_present _ _ _ Hid).
    rewrite !countCategories_rows. simpl.
    rewrite (storeRows_delete storeId' id r _ Hid), filter_cons. simpl.
    repeat case_decide; subst; simpl; try done; lia.
  - intros id storeId'. destruct (categories db !! id) as [r|] eqn:Hid.
    + rewrite (update_present _ dto _ _ Hid).
      rewrite !countCategories_rows. simpl.
      rewrite <- insert_delete_eq.
      rewrite (storeRows_insert storeId' id _ (delete id (categories db)))
        by apply lookup_delete_eq.
      rewrite (storeRows_delete storeId' id r _ Hid), !filter_cons. simpl.
      by repeat case_decide.
    + unfold CategoryService.update, mbind, prisma_bind.
      rewrite (getById_absent _ _ Hid). simpl. by destruct db.
Qed.

Lemma categories_metric_tracks_service_witness :
  (categories exampleDB !! "c2" = None
   ∧ countCategories
       (withCategories exampleDB
          (CategoryService.create (λ _, "c2") "S" exampleDto
             (categories exampleDB)).2) "S"
     = countCategories exampleDB "S" + 1)
  ∧ (categories exampleDB !! "c1" = Some (Category.mkRow "T" "Tea" "tea")
     ∧ countCategories
         (withCategories exampleDB
            (CategoryService.delete "c1" (categories exampleDB)).2) "T"
       = countCategories exampleDB "T" - 1).
Proof.
  pose proof (categories_metric_tracks_service (λ _, "c2") exampleDB "S"
                exampleDto) as (_ & Hcreate & Hdelete & _).
  assert (categories exampleDB !! "c2" = None) as H1 by reflexivity.
  assert (categories exampleDB !! "c1" = Some (Category.mkRow "T" "Tea" "tea"))
    as H2 by reflexivity.
  split; (split; [done|]).
  - exact (Hcreate H1 "S").
  - exact (Hdelete "c1" _ "T" H2).
Defined.

(** ** Further properties of the summary *)

Lemma or_zero_Some q : (Js.or_zero (Some q) == q)%Q.
Proof.
  unfold Js.or_zero. destruct (Qeq_bool q 0) eqn:E; [|reflexivity].
  apply Qeq_bool_iff in E. by rewrite E.
Qed.

Lemma sumZ_bounds {A} (f : A → Z) (lo hi : Z) (l : list A) :
  (∀ x, x ∈ l → lo ≤ f x ≤ hi) →
  lo * Z.of_nat (length l) ≤ sumZ (f <$> l) ≤ hi * Z.of_nat (length l).
Proof.
  induction l as [|x l IH]; intros H; csimpl.
  - unfold sumZ. simpl. lia.
  - assert (lo ≤ f x ≤ hi) by (apply H; by left).
    assert (lo * Z.of_nat (length l) ≤ sumZ (f <$> l)
            ≤ hi * Z.of_nat (length l)) as IH'.
    { apply IH. intros y Hy. apply H. by right. }
    unfold sumZ in *. simpl. lia.
Qed.

(** X9. For a store that has reviews the Average rating metric is the sum
    of the ratings of its reviews divided by their number, and it lies
    between any two bounds that all those ratings respect. *)
Theorem average_rating_metric (db : DB) (storeId : string) (lo hi : Z) :
  storeReviewsOf db storeId ≠ [] →
  (∀ r, r ∈ storeReviewsOf db storeId → lo ≤ Review.rating r ≤ hi) →
  ∃ v,
    Metric.value <$> getMainStatistics db storeId !! 3%nat = Some v
    ∧ (v == inject_Z (sumZ (Review.rating <$> storeReviewsOf db storeId))
            / inject_Z (Z.of_nat (length (storeReviewsOf db storeId))))%Q
    ∧ (inject_Z lo <= v)%Q ∧ (v <= inject_Z hi)%Q.
Proof.
  intros Hne Hbounds. unfold getMainStatistics. simpl.
  unfold calculateAverageRating. fold (storeReviewsOf db storeId).
  set (rs := storeReviewsOf db storeId) in *.
  destruct rs as [|r0 rs'] eqn:Hrs; [done|]. rewrite <- Hrs in *.
  fold (sumZ (Review.rating <$> rs)).
  eexists. split; [reflexivity|].
  pose proof (sumZ_bounds Review.rating lo hi rs Hbounds) as [Hlo Hhi].
  assert (0 < Z.of_nat (length rs)) as Hn by (rewrite Hrs; simpl; lia).
  assert (0 < inject_Z (Z.of_nat (length rs)))%Q as HnQ.
  { change 0%Q with (inject_Z 0). by rewrite <- Zlt_Qlt. }
  rewrite or_zero_Some. split; [reflexivity|]. split.
  - apply Qle_shift_div_l; [done|].
    rewrite <- inject_Z_mult, <- Zle_Qle. done.
  - apply Qle_shift_div_r; [done|].
    rewrite <- inject_Z_mult, <- Zle_Qle. done.
Qed.

Lemma average_rating_metric_witness :
  storeReviewsOf exampleDB "T" ≠ []
  ∧ (∀ r, r ∈ storeReviewsOf exampleDB "T" → 1 ≤ Review.rating r ≤ 5)
  ∧ ∃ v,
      Metric.value <$> getMainStatistics exampleDB "T" !! 3%nat = Some v
      ∧ (v == inject_Z (sumZ (Review.rating <$> storeReviewsOf exampleDB "T"))
              / inject_Z
                  (Z.of_nat (length (storeReviewsOf exampleDB "T"))))%Q
      ∧ (inject_Z 1 <= v)%Q ∧ (v <= inject_Z 5)%Q.
Proof.
  assert (storeReviewsOf exampleDB "T" ≠ []) as H1 by done.
  assert (∀ r, r ∈ storeReviewsOf exampleDB "T" → 1 ≤ Review.rating r ≤ 5)
    as H2.
  { intros r Hr. apply list_elem_of_singleton in Hr as ->. simpl. lia. }
  split; [exact H1|]. split; [exact H2|].
  exact (average_rating_metric exampleDB "T" 1 5 H1 H2).
Defined.






(** X11. The summary of a store is decided by the rows of that store
    alone: two databases with the same order items, products, categories
    and reviews of the store give the same four metrics, whatever their
    other rows are. *)
Theorem getMainStatistics_store_rows_only (db1 db2 : DB) (storeId : string) :
  storeItemsOf db1 storeId = storeItemsOf db2 storeId →
  storeProductsOf db1 storeId = storeProductsOf db2 storeId →
  storeCategoryRowsOf db1 storeId = storeCategoryRowsOf db2 storeId →
  storeReviewsOf db1 storeId = storeReviewsOf db2 storeId →
  getMainStatistics db1 storeId = getMainStatistics db2 storeId.
Proof.
  intros Hi Hp Hc Hr. unfold getMainStatistics.
  rewrite !calculateTotalRevenue_all_orders.
  unfold storeRevenue, countProducts, countCategories, calculateAverageRating.
  fold (storeItemsOf db1 storeId) (storeItemsOf db2 storeId).
  fold (storeProductsOf db1 storeId) (storeProductsOf db2 storeId).
  fold (storeCategoryRowsOf db1 storeId) (storeCategoryRowsOf db2 storeId).
  fold (storeReviewsOf db1 storeId) (storeReviewsOf db2 storeId).
  by rewrite Hi, Hp, Hc, Hr.
Qed.

Lemma getMainStatistics_store_rows_only_witness :
  storeItemsOf exampleDB "S" = storeItemsOf exampleDBOnlyS "S"
  ∧ storeProductsOf exampleDB "S" = storeProductsOf exampleDBOnlyS "S"
  ∧ storeCategoryRowsOf exampleDB "S" = storeCategoryRowsOf exampleDBOnlyS "S"
  ∧ storeReviewsOf exampleDB "S" = storeReviewsOf exampleDBOnlyS "S"
  ∧ getMainStatistics exampleDB "S" = getMainStatistics exampleDBOnlyS "S".
Proof.
  assert (storeItemsOf exampleDB "S" = storeItemsOf exampleDBOnlyS "S")
    as H1 by reflexivity.
  assert (storeProductsOf exampleDB "S" = storeProductsOf exampleDBOnlyS "S")
    as H2 by reflexivity.
  assert (storeCategoryRowsOf exampleDB "S"
          = storeCategoryRowsOf exampleDBOnlyS "S") as H3 by reflexivity.
  assert (storeReviewsOf exampleDB "S" = storeReviewsOf exampleDBOnlyS "S")
    as H4 by reflexivity.
  repeat (split; [done|]).
  exact (getMainStatistics_store_rows_only exampleDB exampleDBOnlyS "S"
           H1 H2 H3 H4).
Defined.

(** ** Further properties of the trends *)

Lemma Forall2_ids (us : list User.t) (out : list LastUser.t) :
  Forall2
    (λ u lu,
       LastUser.id lu = User.id u ∧ LastUser.name lu = User.name u
       ∧ LastUser.email lu = User.email u
       ∧ LastUser.picture lu = User.picture u) us out →
  LastUser.id <$> out = User.id <$> us.
Proof.
  induction 1 as [|u lu us out (Hid & _) _ IH]; csimpl; [done|].
  by rewrite Hid, IH.
Qed.

(** X12. [getLastUsers] annotates each user it returns with the sum of the
    prices, quantities left aside, of the items of the store in the last
    of that user's qualifying orders in table order. *)
Theorem getLastUsers_totals (db : DB) (storeId : string) :
  ∃ out,
    getLastUsers db storeId = Ok out
    ∧ Forall2
        (λ u lu,
           ∃ o, last (filter (qualifyingOrder storeId u) (orders db)) = Some o
                ∧ LastUser.total lu
                  = sumZ (OrderItem.price <$> storeItems storeId o))
        (user <$> findLastUsers db storeId) out.
Proof.
  unfold getLastUsers.
  destruct (exc_mapM_ok lastUserTotal
              (λ u lu,
                 ∃ o, last (filter (qualifyingOrder storeId (user u))
                              (orders db)) = Some o
                      ∧ LastUser.total lu
                        = sumZ (OrderItem.price <$> storeItems storeId o))
              (findLastUsers db storeId)) as (out & Hout & Hall).
  { intros u Hu.
    destruct (lastUserTotal_sums_prices db storeId u Hu)
      as (o & lu & Hlast & Hlu & Htotal).
    exists lu. split; [done|]. by exists o. }
  exists out. split; [done|]. by apply Forall2_fmap_l.
Qed.

(** X13. When the ids of the user table are pairwise distinct, no user
    appears twice in the result of [getLastUsers], however many qualifying
    orders the user has. *)
Theorem getLastUsers_no_duplicates (db : DB) (storeId : string) :
  NoDup (User.id <$> users db) →
  ∃ out, getLastUsers db storeId = Ok out ∧ NoDup (LastUser.id <$> out).
Proof.
  intros Hnodup.
  destruct (getLastUsers_ok db storeId) as (out & Hout & Hall).
  exists out. split; [done|].
  rewrite (Forall2_ids _ _ Hall), findLastUsers_users.
  eapply sublist_NoDup; [|apply fmap_sublist, sublist_take].
  rewrite merge_sort_Permutation.
  eapply sublist_NoDup; [exact Hnodup|].
  apply fmap_sublist, sublist_filter.
Qed.

Lemma getLastUsers_no_duplicates_witness :
  NoDup (User.id <$> users exampleDB)
  ∧ ∃ out, getLastUsers exampleDB "S" = Ok out
           ∧ NoDup (LastUser.id <$> out).
Proof.
  assert (NoDup (User.id <$> users exampleDB)) as H
    by (apply (bool_decide_unpack _); vm_compute; exact I).
  split; [exact H|].
  exact (getLastUsers_no_duplicates exampleDB "S" H).
Defined.

(** X14. For a store of which no order holds an item, [getMiddleStatistics]
    returns normally with an empty daily series and an empty user list. *)
Theorem getMiddleStatistics_no_orders (clk : Clock) (db : DB) (storeId : string) :
  Forall (λ o, ¬ hasStoreItem storeId o) (orders db) →
  getMiddleStatistics clk db storeId = Ok (mkMiddleStatistics [] []).
Proof.
  intros Hnone.
  assert (filter (inSalesWindow clk storeId) (orders db) = []) as Hsales.
  { apply filter_none. eapply Forall_impl; [exact Hnone|].
    intros o Ho (_ & _ & Hs). done. }
  assert (filter (hasQualifyingOrder db storeId) (users db) = []) as Husers.
  { apply filter_none, Forall_forall. intros u _ Hq.
    apply Exists_exists in Hq as (o & Ho & _ & Hs).
    rewrite Forall_forall in Hnone. by apply (Hnone o). }
  unfold getMiddleStatistics, getLastUsers, findLastUsers,
    calculateMonthlySales.
  by rewrite Hsales, Husers.
Qed.

Lemma getMiddleStatistics_no_orders_witness :
  Forall (λ o, ¬ hasStoreItem "U" o) (orders exampleDB)
  ∧ getMiddleStatistics exampleClock exampleDB "U"
    = Ok (mkMiddleStatistics [] []).
Proof.
  assert (Forall (λ o, ¬ hasStoreItem "U" o) (orders exampleDB)) as H
    by (apply (bool_decide_unpack _); vm_compute; exact I).
  split; [exact H|].
  exact (getMiddleStatistics_no_orders exampleClock exampleDB "U" H).
Defined.

(** *** The calendar behind [formatDate] *)

Section CalendarFacts.
Import CalendarSteps.
Local Ltac Zify.zify_post_hook ::= Z.to_euclidean_division_equations.

Lemma monthAndDate_steps d :
  monthAndDate d
  = (monthOf (mpOf (doyOf (doeOf d))) - 1, dayOf (doyOf (doeOf d))).
Proof. reflexivity. Qed.

Lemma doeOf_range d : 0 ≤ doeOf d < 146097.
Proof. unfold doeOf, eraOf. lia. Qed.

Lemma yoeOf_range doe : 0 ≤ doe < 146097 → 0 ≤ yoeOf doe ≤ 399.
Proof. unfold yoeOf. lia. Qed.

Lemma doyOf_range doe : 0 ≤ doe < 146097 → 0 ≤ doyOf doe ≤ 365.
Proof. unfold doyOf, yearStart, yoeOf. lia. Qed.

Lemma mpOf_range doy : 0 ≤ doy ≤ 365 → 0 ≤ mpOf doy ≤ 11.
Proof. unfold mpOf. lia. Qed.

Lemma dayOf_range doy : 0 ≤ doy ≤ 365 → 1 ≤ dayOf doy ≤ 31.
Proof. unfold dayOf, mpOf. lia. Qed.

Lemma monthOf_range mp : 0 ≤ mp ≤ 11 → 1 ≤ monthOf mp ≤ 12.
Proof. unfold monthOf. case_decide; lia. Qed.

Lemma monthOf_inj mp1 mp2 :
  0 ≤ mp1 ≤ 11 → 0 ≤ mp2 ≤ 11 → monthOf mp1 = monthOf mp2 → mp1 = mp2.
Proof. unfold monthOf. repeat case_decide; lia. Qed.

Lemma doy_of_mp_day doy1 doy2 :
  mpOf doy1 = mpOf doy2 → dayOf doy1 = dayOf doy2 → doy1 = doy2.
Proof. unfold dayOf. intros ->. lia. Qed.

Lemma year_apart y1 y2 e1 e2 doy :
  0 ≤ y1 ≤ 399 → 0 ≤ y2 ≤ 399 → 0 ≤ doy ≤ 365 →
  0 ≤ yearStart y1 + doy < 146097 → 0 ≤ yearStart y2 + doy < 146097 →
  0 ≤ (e2 * 146097 + yearStart y2 + doy) - (e1 * 146097 + yearStart y1 + doy)
    ≤ 30 →
  e1 = e2 ∧ y1 = y2.
Proof. unfold yearStart. lia. Qed.

Lemma monthAndDate_range d :
  0 ≤ (monthAndDate d).1 ≤ 11 ∧ 1 ≤ (monthAndDate d).2 ≤ 31.
Proof.
  rewrite monthAndDate_steps. simpl.
  pose proof (doyOf_range _ (doeOf_range d)) as Hdoy.
  pose proof (monthOf_range _ (mpOf_range _ Hdoy)).
  pose proof (dayOf_range _ Hdoy). lia.
Qed.

Lemma monthAndDate_inj_le d1 d2 :
  d1 ≤ d2 ≤ d1 + 30 → monthAndDate d1 = monthAndDate d2 → d1 = d2.
Proof.
  intros Hd. rewrite !monthAndDate_steps. intros [= Hm Hday].
  pose proof (doeOf_range d1) as Hdoe1. pose proof (doeOf_range d2) as Hdoe2.
  pose proof (doyOf_range _ Hdoe1) as Hdoy1.
  pose proof (doyOf_range _ Hdoe2) as Hdoy2.
  assert (doyOf (doeOf d1) = doyOf (doeOf d2)) as Hdoy.
  { apply doy_of_mp_day; [|done].
    apply monthOf_inj; [by apply mpOf_range..|lia]. }
  pose proof (yoeOf_range _ Hdoe1) as Hy1.
  pose proof (yoeOf_range _ Hdoe2) as Hy2.
  assert (doeOf d1 = yearStart (yoeOf (doeOf d1)) + doyOf (doeOf d1)) as E1
    by (unfold doyOf; lia).
  assert (doeOf d2 = yearStart (yoeOf (doeOf d2)) + doyOf (doeOf d2)) as E2
    by (unfold doyOf; lia).
  assert (d1 = eraOf d1 * 146097 + doeOf d1 - 719468) as D1
    by (unfold doeOf; lia).
  assert (d2 = eraOf d2 * 146097 + doeOf d2 - 719468) as D2
    by (unfold doeOf; lia).
  destruct (year_apart (yoeOf (doeOf d1)) (yoeOf (doeOf d2))
              (eraOf d1) (eraOf d2) (doyOf (doeOf d1))) as [He Hy];
    [lia..|].
  rewrite D1, D2, E1, E2, He, Hy, Hdoy. done.
Qed.
End CalendarFacts.

Lemma labelOf_inj p q :
  p ∈ calendarCells → q ∈ calendarCells → labelOf p = labelOf q → p = q.
Proof.
  assert (Forall (λ p, Forall (λ q, labelOf p = labelOf q → p = q)
                         calendarCells) calendarCells) as H.
  { apply (bool_decide_unpack _). vm_compute. exact I. }
  intros Hp Hq. rewrite Forall_forall in H. specialize (H p Hp).
  rewrite Forall_forall in H. exact (H q Hq).
Qed.

Lemma monthAndDate_cell d : monthAndDate d ∈ calendarCells.
Proof.
  pose proof (monthAndDate_range d) as [Hm Hd].
  destruct (monthAndDate d) as [m day]. simpl in *.
  unfold calendarCells.
  apply list_elem_of_bind. exists m. split; [|apply elem_of_seqZ; lia].
  apply list_elem_of_bind. exists day. split; [|apply elem_of_seqZ; lia].
  by apply list_elem_of_singleton.
Qed.

Lemma dayLabel_inj_window d1 d2 :
  d1 - 30 ≤ d2 ≤ d1 + 30 → dayLabel d1 = dayLabel d2 → d1 = d2.
Proof.
  intros Hd Hlabel.
  assert (monthAndDate d1 = monthAndDate d2) as Hmd.
  { apply labelOf_inj; [apply monthAndDate_cell..|exact Hlabel]. }
  destruct (decide (d1 ≤ d2)).
  - apply monthAndDate_inj_le; [lia|done].
  - symmetry. apply monthAndDate_inj_le; [lia|done].
Qed.

(** X15. [formatDate] always finds a month name: its result is the day of
    the month, between 1 and 31, a space, and one of the twelve entries of
    [monthNames], never the text of an undefined array element. *)
Theorem formatDate_month_found (clk : Clock) (t : Z) :
  1 ≤ getDate clk t ≤ 31
  ∧ ∃ name,
      monthNames !! Z.to_nat (getMonth clk t) = Some name
      ∧ formatDate clk t = pretty (getDate clk t) +:+ " " +:+ name.
Proof.
  unfold formatDate, getDate, getMonth.
  pose proof (monthAndDate_range (localDay clk t)) as [Hm Hd].
  split; [done|].
  destruct (lookup_lt_is_Some_2 monthNames
              (Z.to_nat (monthAndDate (localDay clk t)).1)) as [name Hname].
  { change (length monthNames) with 12%nat. lia. }
  exists name. split; [done|].
  by rewrite nth_lookup, Hname.
Qed.

Lemma formatDate_window_iff clk t1 t2 :
  startDate clk ≤ t1 → t1 ≤ endDate clk →
  startDate clk ≤ t2 → t2 ≤ endDate clk →
  formatDate clk t1 = formatDate clk t2 ↔ localDay clk t1 = localDay clk t2.
Proof.
  intros Hlo1 Hhi1 Hlo2 Hhi2.
  pose proof (proj1 (sales_window_days clk t1) (conj Hlo1 Hhi1)).
  pose proof (proj1 (sales_window_days clk t2) (conj Hlo2 Hhi2)).
  rewrite !formatDate_dayLabel. split.
  - apply dayLabel_inj_window. lia.
  - by intros ->.
Qed.

(** X16. [formatDate] leaves the year out, yet inside the window of
    [calculateMonthlySales] it tells the days apart: two timestamps between
    [startDate] and [endDate] get the same label exactly when they fall on
    the same local day. *)
Theorem formatDate_same_label_same_day (clk : Clock) (t1 t2 : Z) :
  startDate clk ≤ t1 ≤ endDate clk →
  startDate clk ≤ t2 ≤ endDate clk →
  formatDate clk t1 = formatDate clk t2 ↔ localDay clk t1 = localDay clk t2.
Proof.
  intros [Hlo1 Hhi1] [Hlo2 Hhi2]. by apply formatDate_window_iff.
Qed.

Lemma formatDate_same_label_same_day_witness :
  startDate exampleClock ≤ 1793620800000 ≤ endDate exampleClock
  ∧ startDate exampleClock ≤ 1793624400000 ≤ endDate exampleClock
  ∧ (formatDate exampleClock 1793620800000
     = formatDate exampleClock 1793624400000
     ↔ localDay exampleClock 1793620800000
       = localDay exampleClock 1793624400000).
Proof.
  assert (startDate exampleClock ≤ 1793620800000 ≤ endDate exampleClock)
    as H1 by (vm_compute; split; discriminate).
  assert (startDate exampleClock ≤ 1793624400000 ≤ endDate exampleClock)
    as H2 by (vm_compute; split; discriminate).
  split; [exact H1|]. split; [exact H2|].
  exact (formatDate_same_label_same_day exampleClock _ _ H1 H2).
Defined.

(** *** The daily series *)

Lemma filter_filter_iff {A} (W P Q : A → Prop)
    `{!∀ x, Decision (W x), !∀ x, Decision (P x), !∀ x, Decision (Q x)}
    (l : list A) :
  (∀ x, W x → (P x ↔ Q x)) → filter P (filter W l) = filter Q (filter W l).
Proof.
  intros Hiff. induction l as [|x l IH]; [done|].
  rewrite (filter_cons W). case_decide as Hw; [|done].
  rewrite !filter_cons, IH. specialize (Hiff x Hw).
  repeat case_decide; tauto.
Qed.

Lemma salesByDate_label_in_window clk db storeId label :
  label ∈ DailySales.date <$> calculateMonthlySales clk db storeId →
  ∃ o, o ∈ orders db ∧ inSalesWindow clk storeId o
       ∧ formatDate clk (Order.createdAt o) = label.
Proof.
  intros Hl. unfold calculateMonthlySales in Hl.
  rewrite <- list_fmap_compose in Hl.
  change (label ∈ (fold_left (addSale clk)
                     (filter (inSalesWindow clk storeId) (orders db)) []).*1)
    in Hl.
  apply salesByDate_keys in Hl as [Hl|(o & Ho & Hlabel)].
  - by apply not_elem_of_nil in Hl.
  - apply list_elem_of_filter in Ho as [Hw Ho]. eauto.
Qed.

(** X17. The daily series has one entry per day: no label comes twice,
    and the day of every order the query returns (placed in the window and
    holding an item of the store) has its entry. *)
Theorem calculateMonthlySales_one_entry_per_day
    (clk : Clock) (db : DB) (storeId : string) :
  NoDup (DailySales.date <$> calculateMonthlySales clk db storeId)
  ∧ ∀ o, o ∈ orders db → inSalesWindow clk storeId o →
         formatDate clk (Order.createdAt o)
         ∈ DailySales.date <$> calculateMonthlySales clk db storeId.
Proof.
  unfold calculateMonthlySales. rewrite <- list_fmap_compose.
  change (DailySales.date ∘ (λ kv : string * Z, DailySales.mk kv.1 kv.2))
    with (@fst string Z).
  split.
  - apply salesByDate_NoDup, NoDup_nil_2.
  - intros o Ho Hw. apply salesByDate_keys. right. exists o.
    split; [|done]. by apply list_elem_of_filter.
Qed.

Lemma calculateMonthlySales_one_entry_per_day_witness :
  Order.mk "B" 1793624400000 "u2" [OrderItem.mk 3 1 "S"] ∈ orders exampleDB
  ∧ inSalesWindow exampleClock "S"
      (Order.mk "B" 1793624400000 "u2" [OrderItem.mk 3 1 "S"])
  ∧ formatDate exampleClock 1793624400000
    ∈ DailySales.date <$> calculateMonthlySales exampleClock exampleDB "S".
Proof.
  assert (Order.mk "B" 1793624400000 "u2" [OrderItem.mk 3 1 "S"]
          ∈ orders exampleDB) as H1
    by (apply list_elem_of_further, list_elem_of_here).
  assert (inSalesWindow exampleClock "S"
            (Order.mk "B" 1793624400000 "u2" [OrderItem.mk 3 1 "S"])) as H2
    by (apply (bool_decide_unpack _); vm_compute; exact I).
  split; [exact H1|]. split; [exact H2|].
  exact (proj2 (calculateMonthlySales_one_entry_per_day exampleClock
                  exampleDB "S") _ H1 H2).
Defined.

Lemma set_sum (m : Js.Map) k v :
  sumZ (Js.set m k v).*2 = sumZ m.*2 - default 0 (Js.get m k) + v.
Proof.
  induction m as [|[k' v'] m IH]; simpl.
  - unfold sumZ. simpl. lia.
  - case_decide; subst; csimpl.
    + unfold sumZ. simpl. lia.
    + unfold sumZ in *. simpl. rewrite IH. lia.
Qed.

Lemma addSale_sum clk (m : Js.Map) o :
  sumZ (addSale clk m o).*2 = sumZ m.*2 + orderTotal o.
Proof.
  unfold addSale. destruct (Js.has _ _) eqn:Hhas; rewrite set_sum.
  - lia.
  - rewrite (has_get _ _ Hhas). simpl. lia.
Qed.

Lemma salesByDate_sum clk (os : list Order.t) (m : Js.Map) :
  sumZ (fold_left (addSale clk) os m).*2
  = sumZ m.*2 + sumZ (orderTotal <$> os).
Proof.
  revert m. induction os as [|o os IH]; intros m; csimpl.
  - unfold sumZ. simpl. lia.
  - rewrite IH, addSale_sum. unfold sumZ. simpl. lia.
Qed.

(** X18. Nothing is lost or counted twice in the grouping: the values of
    the daily series add up to the line totals of all the items of the
    orders the query returns. *)
Theorem calculateMonthlySales_adds_up
    (clk : Clock) (db : DB) (storeId : string) :
  sumZ (DailySales.value <$> calculateMonthlySales clk db storeId)
  = sumZ ((λ o, sumZ (lineTotal <$> Order.items o))
            <$> filter (inSalesWindow clk storeId) (orders db)).
Proof.
  unfold calculateMonthlySales. rewrite <- list_fmap_compose.
  change (DailySales.value ∘ (λ kv : string * Z, DailySales.mk kv.1 kv.2))
    with (@snd string Z).
  rewrite salesByDate_sum.
  change (sumZ ([] : Js.Map).*2) with 0. rewrite Z.add_0_l.
  f_equal. apply list_fmap_ext. intros _ o _. apply orderTotal_all_items.
Qed.

(** X19. Each entry of the daily series stands for one local day of the
    window: its label is the label of that day and its value is the sum of
    the line totals of all the items, of whatever store, of the orders the
    query returns that were placed on that day. *)
Theorem calculateMonthlySales_value_per_day
    (clk : Clock) (db : DB) (storeId : string) (e : DailySales.t) :
  e ∈ calculateMonthlySales clk db storeId →
  ∃ d,
    localDay clk (now clk) - 30 ≤ d ≤ localDay clk (now clk)
    ∧ DailySales.date e = dayLabel d
    ∧ DailySales.value e
      = sumZ ((λ o, sumZ (lineTotal <$> Order.items o))
                <$> filter (λ o, localDay clk (Order.createdAt o) = d)
                      (filter (inSalesWindow clk storeId) (orders db))).
Proof.
  intros He.
  destruct (salesByDate_label_in_window clk db storeId (DailySales.date e))
    as (o & Ho & Hw & Hlabel).
  { apply list_elem_of_fmap. by exists e. }
  exists (localDay clk (Order.createdAt o)).
  assert (startDate clk ≤ Order.createdAt o ≤ endDate clk) as Hwin
    by (destruct Hw as (? & ? & _); done).
  split; [by apply sales_window_days|].
  split; [by rewrite <- Hlabel|].
  rewrite (monthlySales_value clk db storeId e He). do 2 f_equal.
  apply filter_filter_iff. intros o' (Hlo & Hhi & _).
  rewrite <- Hlabel. apply formatDate_window_iff; lia.
Qed.

Lemma calculateMonthlySales_value_per_day_witness :
  DailySales.mk "2 nov" 28 ∈ calculateMonthlySales exampleClock exampleDB "S"
  ∧ ∃ d,
      localDay exampleClock (now exampleClock) - 30 ≤ d
      ≤ localDay exampleClock (now exampleClock)
      ∧ "2 nov" = dayLabel d
      ∧ 28 = sumZ ((λ o, sumZ (lineTotal <$> Order.items o))
                     <$> filter
                           (λ o, localDay exampleClock (Order.createdAt o) = d)
                           (filter (inSalesWindow exampleClock "S")
                              (orders exampleDB))).
Proof.
  assert (DailySales.mk "2 nov" 28
          ∈ calculateMonthlySales exampleClock exampleDB "S") as He
    by apply list_elem_of_here.
  split; [exact He|].
  exact (calculateMonthlySales_value_per_day exampleClock exampleDB "S" _ He).
Defined.


